(** * The SSE server transports and the client authentication middleware

    A shallow embedding of
      - [src/server/auth/middleware/clientAuth.ts] ([authenticateClient]),
      - the server's SSE module ([SSEServerTransport] and
        [HonoSSEServerTransport]),
    and the properties of the transport specification checked against it.

    Conventions.  An [async] method becomes a function from the object's
    state to the new state and a completion: [inr v] when the promise
    resolves with [v], [inl e] when it rejects with [e].  The callbacks
    [onclose], [onerror], [onmessage] are assignable fields; the model keeps
    whether each is assigned and records every invocation in a log, in
    order.  Callbacks are observers: they neither throw nor call back into
    the transport. *)

From Stdlib Require Import String Ascii List Bool ZArith NArith Arith Lia.
Import ListNotations.
Open Scope string_scope.

Set Implicit Arguments.

(* ================================================================== *)
(** ** The pieces of the JavaScript runtime the code relies on *)

Module Js.

(** An [Error] object: its [name] and its [message]. *)
Record Error : Type := mkError { name : string; message : string }.

(** [new Error(msg)]. *)
Definition new_Error (msg : string) : Error := mkError "Error" msg.

(** [String(error)], that is [Error.prototype.toString]. *)
Definition String_of_Error (e : Error) : string :=
  if String.eqb (name e) "" then message e
  else if String.eqb (message e) "" then name e
  else name e ++ ": " ++ message e.

(** Truthiness of a [string | undefined]: [undefined] and the empty string
    are falsy. *)
Definition truthy_string (s : option string) : bool :=
  match s with
  | None => false
  | Some s => negb (String.eqb s "")
  end.

(** Truthiness of a [number | undefined] holding an integer: [undefined]
    and [0] are falsy. *)
Definition truthy_number (n : option Z) : bool :=
  match n with
  | None => false
  | Some n => negb (Z.eqb n 0)
  end.

(** [a === b] on [string | undefined]. *)
Definition strict_eq (a b : option string) : bool :=
  match a, b with
  | None, None => true
  | Some x, Some y => String.eqb x y
  | _, _ => false
  end.

(** [a || b] on strings. *)
Definition or_else (a : option string) (b : string) : string :=
  if truthy_string a then match a with Some s => s | None => b end else b.

(** [a ?? b] on [string | undefined]. *)
Definition nullish_else (a : option string) (b : string) : string :=
  match a with Some s => s | None => b end.

(** [s.includes(sub)]. *)
Fixpoint includes (s sub : string) : bool :=
  String.prefix sub s ||
  match s with
  | EmptyString => false
  | String _ rest => includes rest sub
  end.

(** [encodeURI].  Strings are sequences of UTF-8 bytes here; [encodeURI]
    leaves the reserved and unreserved ASCII characters and [#] alone and
    writes every other byte of the UTF-8 encoding as [%XX].  (A string
    with a lone surrogate, on which [encodeURI] throws, has no UTF-8
    form.) *)
Definition uri_kept (c : ascii) : bool :=
  let n := nat_of_ascii c in
  ((65 <=? n)%nat && (n <=? 90)%nat) || ((97 <=? n)%nat && (n <=? 122)%nat) ||
  ((48 <=? n)%nat && (n <=? 57)%nat) ||
  existsb (Ascii.eqb c)
    (list_ascii_of_string ";/?:@&=+$,-_.!~*'()#").

Definition hex_digit (n : nat) : ascii :=
  if (n <? 10)%nat then ascii_of_nat (48 + n) else ascii_of_nat (55 + n).

Definition percent_byte (c : ascii) : string :=
  let n := nat_of_ascii c in
  String "%" (String (hex_digit (n / 16)) (String (hex_digit (n mod 16)) "")).

Fixpoint encodeURI (s : string) : string :=
  match s with
  | EmptyString => EmptyString
  | String c rest =>
      if uri_kept c then String c (encodeURI rest)
      else percent_byte c ++ encodeURI rest
  end.

(** The result of an [async] call: rejected with an error, or resolved. *)
Definition Completion (E A : Type) : Type := (E + A)%type.

End Js.

(* ================================================================== *)
(** ** [authenticateClient] (src/server/auth/middleware/clientAuth.ts) *)

Module ClientAuth.
Import Js.

(** A property of [req.body] as [ClientAuthenticatedRequestSchema] sees
    it: missing, a string, or a value of another type. *)
Inductive Field : Type :=
| FUndefined
| FString (s : string)
| FOther.

(** [req.body]: [None] when it is not an object at all. *)
Record Body : Type := mkBody { body_client_id : Field; body_client_secret : Field }.

(** [ClientAuthenticatedRequestSchema.safeParse]:
    [{ client_id: z.string(), client_secret: z.string().optional() }]. *)
Definition safeParse (b : option Body) : option (string * option string) :=
  match b with
  | Some (mkBody (FString id) FUndefined) => Some (id, None)
  | Some (mkBody (FString id) (FString secret)) => Some (id, Some secret)
  | _ => None
  end.

(** The fields of [OAuthClientInformationFull] the middleware reads;
    [client_secret_expires_at] is in epoch seconds. *)
Record OAuthClientInformationFull : Type := mkClient {
  client_id : string;
  client_secret : option string;
  client_secret_expires_at : option Z
}.

(** Modelled from the spec: the error classes of [src/server/auth/errors.ts],
    which is not among the sources.  An OAuth-style error is tagged with a
    kind and a description, and serializes to [{error, error_description}]. *)
Inductive OAuthError : Type :=
| InvalidRequestError (description : string)
| InvalidClientError (description : string)
| ServerError (description : string).

Record ResponseObject : Type := mkResponseObject {
  error : string;
  error_description : string
}.

Definition toResponseObject (e : OAuthError) : ResponseObject :=
  match e with
  | InvalidRequestError d => mkResponseObject "invalid_request" d
  | InvalidClientError d => mkResponseObject "invalid_client" d
  | ServerError d => mkResponseObject "server_error" d
  end.

(** What can be thrown inside the [try] block. *)
Inductive Thrown : Type :=
| ThrownOAuth (e : OAuthError)
| ThrownOther.

(** What [clientsStore.getClient] gives for a client id. *)
Inductive Lookup : Type :=
| Found (c : OAuthClientInformationFull)
| NotFound
| LookupThrows (e : Thrown).

(** What the middleware does with the request: [req.client = client;
    next()], or [res.status(status).json(body)]. *)
Inductive Outcome : Type :=
| Next (client : OAuthClientInformationFull)
| Respond (status : nat) (body : ResponseObject).

Section Middleware.

(** [clientsStore.getClient]. *)
Variable getClient : string -> Lookup.
(** [String(result.error)] of a failed [safeParse]. *)
Variable ZodError_text : option Body -> string.
(** [Date.now()], in milliseconds. *)
Variable now : Z.

(** [Math.floor(Date.now() / 1000)]. *)
Definition now_seconds : Z := (now / 1000)%Z.

(** The body of the [try] block. *)
Definition authenticate (body : option Body) : Thrown + OAuthClientInformationFull :=
  match safeParse body with
  | None => inl (ThrownOAuth (InvalidRequestError (ZodError_text body)))
  | Some (id, secret) =>
      match getClient id with
      | LookupThrows e => inl e
      | NotFound => inl (ThrownOAuth (InvalidClientError "Invalid client_id"))
      | Found client =>
          if truthy_string (client_secret client) then
            if negb (truthy_string secret) then
              inl (ThrownOAuth (InvalidClientError "Client secret is required"))
            else if negb (strict_eq (client_secret client) secret) then
              inl (ThrownOAuth (InvalidClientError "Invalid client_secret"))
            else if truthy_number (client_secret_expires_at client)
                    && match client_secret_expires_at client with
                       | Some e => (e <? now_seconds)%Z
                       | None => false
                       end then
              inl (ThrownOAuth (InvalidClientError "Client secret has expired"))
            else inr client
          else inr client
      end
  end.

(** The [catch] block. *)
Definition on_thrown (t : Thrown) : Outcome :=
  match t with
  | ThrownOAuth e =>
      Respond (match e with ServerError _ => 500 | _ => 400 end)
              (toResponseObject e)
  | ThrownOther => Respond 500 (toResponseObject (ServerError "Internal Server Error"))
  end.

Definition authenticateClient (body : option Body) : Outcome :=
  match authenticate body with
  | inr client => Next client
  | inl t => on_thrown t
  end.

End Middleware.

(** The rejection an [invalid_client] error with description [d] produces. *)
Definition invalid_client (d : string) : Outcome :=
  Respond 400 (mkResponseObject "invalid_client" d).

(** A well-formed body: a string [client_id] and an optional string
    [client_secret]. *)
Definition well_formed (id : string) (secret : option string) : option Body :=
  Some (mkBody (FString id)
               (match secret with Some s => FString s | None => FUndefined end)).

End ClientAuth.

(* ================================================================== *)
(** ** The SSE server transports (src/server/sse.ts) *)

Module Transport.
Import Js.

(** The result of [contentType.parse]: the media type, lower-cased, and
    the [charset] parameter when there is one. *)
Record ContentType : Type := mkContentType {
  type : string;
  charset : option string
}.

(** What the transports take from their environment: JavaScript values
    ([unknown] in the source), the JSON functions, the message schema of
    [src/types.ts] and the modules [content-type] and [raw-body].  None of
    them is among the sources; the transports are modelled over any
    implementation of them.  A function that can throw returns the error
    on the left. *)
Class Runtime : Type := {
  JsValue : Type;
  JSONRPCMessage : Type;
  (** [v === null || v === undefined], the test made by [??] *)
  is_nullish : JsValue -> bool;
  (** [typeof v === 'string'], with the string *)
  typeof_string : JsValue -> option string;
  (** a value interpolated into a template literal *)
  to_String : JsValue -> string;
  JSON_parse : string -> Error + JsValue;
  (** [JSON.stringify], interpolated into a template literal *)
  JSON_stringify : JsValue -> string;
  (** [JSON.stringify] of a message *)
  JSON_stringify_message : JSONRPCMessage -> string;
  (** [JSONRPCMessageSchema.parse] *)
  JSONRPCMessageSchema_parse : JsValue -> Error + JSONRPCMessage;
  (** [contentType.parse] *)
  contentType_parse : string -> Error + ContentType;
  (** the decoding [raw-body] applies to the bytes it has read, for an
      encoding name *)
  decode : string -> string -> Error + string
}.

(** [MAXIMUM_MESSAGE_SIZE = "4mb"], in bytes as [raw-body] reads it. *)
Definition MAXIMUM_MESSAGE_SIZE : N := (4 * 1024 * 1024)%N.

Definition nl : string := String (ascii_of_nat 10) EmptyString.

(** The error [raw-body] raises once more than [limit] bytes arrived. *)
Definition entity_too_large : Error :=
  mkError "PayloadTooLargeError" "request entity too large".

(** The error a [node:http] response raises when [writeHead] is called
    after the head was written. *)
Definition ERR_HTTP_HEADERS_SENT : Error :=
  mkError "Error" "Cannot write headers after they are sent to the client".

(** An inbound POST request: its [Content-Type] header and the bytes of
    its body. *)
Record Request : Type := mkRequest {
  content_type : option string;
  payload : string
}.

(** The response given to a POST request. *)
Record HttpResponse : Type := mkHttpResponse {
  status : nat;
  text : string
}.

(** Which callbacks are assigned. *)
Record Callbacks : Type := mkCallbacks {
  onclose : bool;
  onerror : bool;
  onmessage : bool
}.

Section WithRuntime.
Context {R : Runtime}.

(** An invocation of a callback. *)
Inductive Event : Type :=
| OnClose
| OnError (e : Error)
| OnMessage (m : JSONRPCMessage).

(** [this.on...?.(...)]: the callback is invoked when it is assigned. *)
Definition fire (assigned : bool) (e : Event) (log : list Event) : list Event :=
  if assigned then log ++ [e] else log.

(** [getRawBody(req, { limit, encoding })]. *)
Definition getRawBody (req : Request) (limit : N) (encoding : string)
  : Error + string :=
  if (limit <? N.of_nat (String.length (payload req)))%N
  then inl entity_too_large
  else decode encoding (payload req).

(** [parsedBody ?? ...]: the parsed body when one was passed and is
    neither [null] nor [undefined]. *)
Definition given (parsedBody : option JsValue) : option JsValue :=
  match parsedBody with
  | Some v => if is_nullish v then None else Some v
  | None => None
  end.

(** [`event: ${event}\ndata: ${data}\n\n`]. *)
Definition sse_event (event data : string) : string :=
  "event: " ++ event ++ nl ++ "data: " ++ data ++ nl ++ nl.

End WithRuntime.

End Transport.

(* ------------------------------------------------------------------ *)
(** *** [SSEServerTransport]: the variant over a [node:http] response *)

Module Sse.
Import Js Transport.

(** The response object [res] handed to the constructor, as far as the
    transport uses it: the heads and chunks written to it, whether [end()]
    was called and how many ['close'] listeners are registered.  A
    [node:http] response throws when [writeHead] is called after a head
    was written; a stand-in that merely records the calls does not.
    [strict] says which kind this one is. *)
Record ServerResponse : Type := mkServerResponse {
  strict : bool;
  heads : list (nat * list (string * string));
  written : list string;
  ended : bool;
  close_listeners : nat
}.

(** A response nothing has been written to. *)
Definition fresh_response (strict : bool) : ServerResponse :=
  mkServerResponse strict [] [] false 0.

Definition writeHead (code : nat) (headers : list (string * string))
           (r : ServerResponse) : Error + ServerResponse :=
  match heads r with
  | _ :: _ =>
      if strict r then inl ERR_HTTP_HEADERS_SENT
      else inr (mkServerResponse (strict r) (heads r ++ [(code, headers)])
                                 (written r) (ended r) (close_listeners r))
  | [] => inr (mkServerResponse (strict r) [(code, headers)]
                                (written r) (ended r) (close_listeners r))
  end.

Definition write (chunk : string) (r : ServerResponse) : ServerResponse :=
  mkServerResponse (strict r) (heads r) (written r ++ [chunk]) (ended r)
                   (close_listeners r).

Definition end_ (r : ServerResponse) : ServerResponse :=
  mkServerResponse (strict r) (heads r) (written r) true (close_listeners r).

(** [res.on("close", listener)]. *)
Definition on_close (r : ServerResponse) : ServerResponse :=
  mkServerResponse (strict r) (heads r) (written r) (ended r)
                   (S (close_listeners r)).

Section WithRuntime.
Context {R : Runtime}.

(** The transport object.  [_sseResponse] is either [undefined] or the
    response [res] itself, so it is kept as a flag. *)
Record SSEServerTransport : Type := mkSSEServerTransport {
  _endpoint : string;
  _sessionId : string;
  res : ServerResponse;
  _sseResponse : bool;
  callbacks : Callbacks;
  log : list Event
}.

(** [new SSEServerTransport(_endpoint, res)]; [sessionId] is the value
    [randomUUID()] returns. *)
Definition new (endpoint : string) (r : ServerResponse) (sessionId : string)
           (cb : Callbacks) : SSEServerTransport :=
  mkSSEServerTransport endpoint sessionId r false cb [].

Definition with_res (t : SSEServerTransport) (r : ServerResponse) :=
  mkSSEServerTransport (_endpoint t) (_sessionId t) r (_sseResponse t)
                       (callbacks t) (log t).

Definition with_sseResponse (t : SSEServerTransport) (b : bool) :=
  mkSSEServerTransport (_endpoint t) (_sessionId t) (res t) b
                       (callbacks t) (log t).

Definition with_log (t : SSEServerTransport) (l : list Event) :=
  mkSSEServerTransport (_endpoint t) (_sessionId t) (res t) (_sseResponse t)
                       (callbacks t) l.

Definition already_started : Error :=
  new_Error "SSEServerTransport already started! If using Server class, note that connect() calls start() automatically.".

Definition sse_headers : list (string * string) :=
  [("Content-Type", "text/event-stream");
   ("Cache-Control", "no-cache");
   ("Connection", "keep-alive")].

(** [start()]. *)
Definition start (t : SSEServerTransport)
  : SSEServerTransport * Completion Error unit :=
  if _sseResponse t then (t, inl already_started)
  else
    match writeHead 200 sse_headers (res t) with
    | inl e => (t, inl e)
    | inr r1 =>
        let r2 :=
          write ("event: endpoint" ++ nl ++ "data: " ++ encodeURI (_endpoint t)
                 ++ "?sessionId=" ++ _sessionId t ++ nl ++ nl) r1 in
        (with_sseResponse (with_res t (on_close r2)) true, inr tt)
    end.

(** The listener [start()] registers for the response's ['close'] event. *)
Definition close_listener (t : SSEServerTransport) : SSEServerTransport :=
  let t1 := with_sseResponse t false in
  with_log t1 (fire (onclose (callbacks t1)) OnClose (log t1)).

(** The response emits ['close']: every registered listener runs. *)
Definition emit_close (t : SSEServerTransport) : SSEServerTransport :=
  Nat.iter (close_listeners (res t)) close_listener t.

(** [handleMessage(message)]. *)
Definition handleMessage (t : SSEServerTransport) (message : JsValue)
  : SSEServerTransport * Completion Error unit :=
  match JSONRPCMessageSchema_parse message with
  | inl error =>
      (with_log t (fire (onerror (callbacks t)) (OnError error) (log t)), inl error)
  | inr parsedMessage =>
      (with_log t (fire (onmessage (callbacks t)) (OnMessage parsedMessage) (log t)),
       inr tt)
  end.

Definition not_established : string := "SSE connection not established".

(** The first [try] block of [handlePostMessage]: the body, either the
    text read from the request or the parsed body that was passed.  The
    error for another media type interpolates the object [ct], which reads
    [[object Object]]. *)
Definition read_body (req : Request) (parsedBody : option JsValue)
  : Error + (string + JsValue) :=
  match contentType_parse (nullish_else (content_type req) "") with
  | inl e => inl e
  | inr ct =>
      if negb (String.eqb (type ct) "application/json")
      then inl (new_Error "Unsupported content-type: [object Object]")
      else
        match given parsedBody with
        | Some v => inr (inr v)
        | None =>
            match getRawBody req MAXIMUM_MESSAGE_SIZE
                             (nullish_else (charset ct) "utf-8") with
            | inl e => inl e
            | inr s => inr (inl s)
            end
        end
  end.

(** [typeof body === 'string' ? JSON.parse(body) : body]. *)
Definition parse_body (body : string + JsValue) : Error + JsValue :=
  match body with
  | inl s => JSON_parse s
  | inr v =>
      match typeof_string v with
      | Some s => JSON_parse s
      | None => inr v
      end
  end.

(** [`${body}`]. *)
Definition body_text (body : string + JsValue) : string :=
  match body with
  | inl s => s
  | inr v => to_String v
  end.

(** [handlePostMessage(req, res, parsedBody)]: the new state, the
    response written to the POST's [res] and how the call completes. *)
Definition handlePostMessage (t : SSEServerTransport) (req : Request)
           (parsedBody : option JsValue)
  : SSEServerTransport * HttpResponse * Completion Error unit :=
  if negb (_sseResponse t) then
    (t, mkHttpResponse 500 not_established, inl (new_Error not_established))
  else
    match read_body req parsedBody with
    | inl error =>
        (with_log t (fire (onerror (callbacks t)) (OnError error) (log t)),
         mkHttpResponse 400 (String_of_Error error), inr tt)
    | inr body =>
        match parse_body body with
        | inl _ => (t, mkHttpResponse 400 ("Invalid message: " ++ body_text body), inr tt)
        | inr message =>
            match handleMessage t message with
            | (t', inl _) =>
                (t', mkHttpResponse 400 ("Invalid message: " ++ body_text body), inr tt)
            | (t', inr _) => (t', mkHttpResponse 202 "Accepted", inr tt)
            end
        end
    end.

(** [close()]. *)
Definition close (t : SSEServerTransport)
  : SSEServerTransport * Completion Error unit :=
  let t1 := if _sseResponse t then with_res t (end_ (res t)) else t in
  let t2 := with_sseResponse t1 false in
  (with_log t2 (fire (onclose (callbacks t2)) OnClose (log t2)), inr tt).

Definition not_connected : Error := new_Error "Not connected".

(** [send(message)]. *)
Definition send (t : SSEServerTransport) (message : JSONRPCMessage)
  : SSEServerTransport * Completion Error unit :=
  if negb (_sseResponse t) then (t, inl not_connected)
  else
    (with_res t (write ("event: message" ++ nl ++ "data: "
                        ++ JSON_stringify_message message ++ nl ++ nl) (res t)),
     inr tt).

(** [get sessionId()]. *)
Definition sessionId (t : SSEServerTransport) : string := _sessionId t.

(** What can happen to a transport: a call of one of its methods, or the
    response emitting ['close']. *)
Inductive Op : Type :=
| Start
| HandlePostMessage (req : Request) (parsedBody : option JsValue)
| HandleMessage (message : JsValue)
| Close
| Send (message : JSONRPCMessage)
| ResponseClosed.

Definition step (t : SSEServerTransport) (op : Op) : SSEServerTransport :=
  match op with
  | Start => fst (start t)
  | HandlePostMessage req parsedBody => fst (fst (handlePostMessage t req parsedBody))
  | HandleMessage message => fst (handleMessage t message)
  | Close => fst (close t)
  | Send message => fst (send t message)
  | ResponseClosed => emit_close t
  end.

Definition run (t : SSEServerTransport) (ops : list Op) : SSEServerTransport :=
  fold_left step ops t.

Definition is_start (op : Op) : bool :=
  match op with Start => true | _ => false end.

End WithRuntime.

End Sse.

(* ------------------------------------------------------------------ *)
(** *** [HonoSSEServerTransport]: the variant over a [TransformStream] *)

Module Hono.
Import Js Transport.

Section WithRuntime.
Context {R : Runtime}.

(** The transport object together with what it reaches through
    [context].  A [TransformStream] is named by the order of its
    creation; [_writer] holds the stream its writer belongs to.  A write
    to the writer is taken to complete. *)
Record HonoSSEServerTransport : Type := mkHono {
  _endpoint : string;
  _sessionId : string;
  _writer : option nat;
  _isConnectionClosed : bool;
  (** how many [TransformStream]s [start()] has created *)
  streams : nat;
  (** [context.res]: the stream whose readable end is the response body *)
  context_res : option nat;
  (** the chunks written, each with its stream, in order *)
  wire : list (nat * string);
  (** the streams whose writer was closed *)
  closed_writers : list nat;
  (** the listeners on [context.req.raw.signal] for ['abort'] *)
  abort_listeners : nat;
  callbacks : Callbacks;
  log : list Event
}.

(** [new HonoSSEServerTransport(_endpoint, context)]; [sessionId] is the
    value [randomUUID()] returns. *)
Definition new (endpoint sessionId : string) (cb : Callbacks)
  : HonoSSEServerTransport :=
  mkHono endpoint sessionId None false 0 None [] [] 0 cb [].

Definition already_started : Error :=
  new_Error "HonoSSEServerTransport already started! If using Server class, note that connect() calls start() automatically.".

Definition not_connected : Error := new_Error "Not connected".

Definition connected (t : HonoSSEServerTransport) : bool :=
  match _writer t with
  | Some _ => negb (_isConnectionClosed t)
  | None => false
  end.

(** [writeEvent(event, data)]. *)
Definition writeEvent (t : HonoSSEServerTransport) (event data : string)
  : HonoSSEServerTransport * Completion Error unit :=
  match _writer t with
  | Some w =>
      if _isConnectionClosed t then (t, inl not_connected)
      else
        (mkHono (_endpoint t) (_sessionId t) (_writer t) (_isConnectionClosed t)
                (streams t) (context_res t)
                (wire t ++ [(w, sse_event event data)])
                (closed_writers t) (abort_listeners t) (callbacks t) (log t),
         inr tt)
  | None => (t, inl not_connected)
  end.

(** [start()]. *)
Definition start (t : HonoSSEServerTransport)
  : HonoSSEServerTransport * Completion Error unit :=
  match _writer t with
  | Some _ => (t, inl already_started)
  | None =>
      let t1 :=
        mkHono (_endpoint t) (_sessionId t) (Some (streams t))
               (_isConnectionClosed t) (S (streams t)) (Some (streams t))
               (wire t) (closed_writers t) (abort_listeners t)
               (callbacks t) (log t) in
      match writeEvent t1 "endpoint"
                       (encodeURI (_endpoint t1) ++ "?sessionId=" ++ _sessionId t1) with
      | (t2, inl e) => (t2, inl e)
      | (t2, inr _) =>
          (mkHono (_endpoint t2) (_sessionId t2) (_writer t2)
                  (_isConnectionClosed t2) (streams t2) (context_res t2)
                  (wire t2) (closed_writers t2) (S (abort_listeners t2))
                  (callbacks t2) (log t2),
           inr tt)
      end
  end.

(** [handleConnectionClose()]. *)
Definition handleConnectionClose (t : HonoSSEServerTransport)
  : HonoSSEServerTransport :=
  if negb (_isConnectionClosed t) then
    mkHono (_endpoint t) (_sessionId t) None true (streams t) (context_res t)
           (wire t)
           (match _writer t with
            | Some w => closed_writers t ++ [w]
            | None => closed_writers t
            end)
           (abort_listeners t) (callbacks t)
           (fire (onclose (callbacks t)) OnClose (log t))
  else t.

(** The request's signal emits ['abort']: every registered listener
    runs. *)
Definition emit_abort (t : HonoSSEServerTransport) : HonoSSEServerTransport :=
  Nat.iter (abort_listeners t) handleConnectionClose t.

Definition with_log (t : HonoSSEServerTransport) (l : list Event) :=
  mkHono (_endpoint t) (_sessionId t) (_writer t) (_isConnectionClosed t)
         (streams t) (context_res t) (wire t) (closed_writers t)
         (abort_listeners t) (callbacks t) l.

(** [handleMessage(message)]. *)
Definition handleMessage (t : HonoSSEServerTransport) (message : JsValue)
  : HonoSSEServerTransport * Completion Error unit :=
  match JSONRPCMessageSchema_parse message with
  | inl error =>
      (with_log t (fire (onerror (callbacks t)) (OnError error) (log t)), inl error)
  | inr parsedMessage =>
      (with_log t (fire (onmessage (callbacks t)) (OnMessage parsedMessage) (log t)),
       inr tt)
  end.

Definition not_established : string := "SSE connection not established".

(** The first [try] block of [handlePostMessage]; [context.req.json()]
    reads the whole body and parses it. *)
Definition read_body (req : Request) (parsedBody : option JsValue)
  : Error + JsValue :=
  let contentTypeHeader := or_else (content_type req) "" in
  if negb (includes contentTypeHeader "application/json")
  then inl (new_Error ("Unsupported content-type: " ++ contentTypeHeader))
  else
    match given parsedBody with
    | Some v => inr v
    | None => JSON_parse (payload req)
    end.

(** [handlePostMessage(context, parsedBody)]: the new state and how the
    call completes, with the [Response] it returns. *)
Definition handlePostMessage (t : HonoSSEServerTransport) (req : Request)
           (parsedBody : option JsValue)
  : HonoSSEServerTransport * Completion Error HttpResponse :=
  if negb (connected t) then (t, inr (mkHttpResponse 500 not_established))
  else
    match read_body req parsedBody with
    | inl error =>
        (with_log t (fire (onerror (callbacks t)) (OnError error) (log t)),
         inr (mkHttpResponse 400 (String_of_Error error)))
    | inr body =>
        match handleMessage t body with
        | (t', inl _) =>
            (t', inr (mkHttpResponse 400 ("Invalid message: " ++ JSON_stringify body)))
        | (t', inr _) => (t', inr (mkHttpResponse 202 "Accepted"))
        end
    end.

(** [close()]. *)
Definition close (t : HonoSSEServerTransport)
  : HonoSSEServerTransport * Completion Error unit :=
  (handleConnectionClose t, inr tt).

(** [send(message)]. *)
Definition send (t : HonoSSEServerTransport) (message : JSONRPCMessage)
  : HonoSSEServerTransport * Completion Error unit :=
  if negb (connected t) then (t, inl not_connected)
  else writeEvent t "message" (JSON_stringify_message message).

(** [get sessionId()]. *)
Definition sessionId (t : HonoSSEServerTransport) : string := _sessionId t.

(** What can happen to a transport: a call of one of its methods, or the
    request's signal emitting ['abort']. *)
Inductive Op : Type :=
| Start
| HandlePostMessage (req : Request) (parsedBody : option JsValue)
| HandleMessage (message : JsValue)
| Close
| Send (message : JSONRPCMessage)
| Aborted.

Definition step (t : HonoSSEServerTransport) (op : Op) : HonoSSEServerTransport :=
  match op with
  | Start => fst (start t)
  | HandlePostMessage req parsedBody => fst (handlePostMessage t req parsedBody)
  | HandleMessage message => fst (handleMessage t message)
  | Close => fst (close t)
  | Send message => fst (send t message)
  | Aborted => emit_abort t
  end.

Definition run (t : HonoSSEServerTransport) (ops : list Op) : HonoSSEServerTransport :=
  fold_left step ops t.

End WithRuntime.

End Hono.

(* ================================================================== *)
(** ** Notions the properties are stated with *)

Module Spec.
Import Js Transport.

Section WithRuntime.
Context {R : Runtime}.

Definition is_onclose (e : Event) : bool :=
  match e with OnClose => true | _ => false end.

(** How many times [onclose] was invoked. *)
Definition count_onclose (log : list Event) : nat :=
  List.length (filter is_onclose log).


(** The errors [onerror] was invoked with, in order. *)
Fixpoint reported (log : list Event) : list Error :=
  match log with
  | [] => []
  | OnError e :: rest => e :: reported rest
  | _ :: rest => reported rest
  end.


(** The frame announcing the endpoint, for the text [url] put in its
    [data] field before the session id. *)
Definition endpoint_event (url sessionId : string) : string :=
  "event: endpoint" ++ nl ++ "data: " ++ url ++ "?sessionId=" ++ sessionId
  ++ nl ++ nl.

(** The frame carrying a message. *)
Definition message_event (m : JSONRPCMessage) : string :=
  "event: message" ++ nl ++ "data: " ++ JSON_stringify_message m ++ nl ++ nl.

(** The media type of a [Content-Type] header, as [contentType.parse]
    reads it, is [application/json]. *)
Definition is_json_media_type (header : option string) : bool :=
  match contentType_parse (nullish_else header "") with
  | inr ct => String.eqb (type ct) "application/json"
  | inl _ => false
  end.

(** The body of a request is larger than the transports' limit. *)
Definition oversized (req : Request) : Prop :=
  (MAXIMUM_MESSAGE_SIZE < N.of_nat (String.length (payload req)))%N.

(** A sequence of operations in which [start()] is not called. *)
Definition no_start (ops : list Sse.Op) : Prop :=
  forallb (fun op => negb (Sse.is_start op)) ops = true.

(** The response is a [node:http] one and its head has been written:
    it will refuse another [writeHead]. *)
Definition head_sent (t : Sse.SSEServerTransport) : Prop :=
  Sse.strict (Sse.res t) = true /\ Sse.heads (Sse.res t) <> [].

(** [onclose] has fired at most once, and only if the close flag is
    set. *)
Definition close_guarded (t : Hono.HonoSSEServerTransport) : Prop :=
  count_onclose (Hono.log t) <= (if Hono._isConnectionClosed t then 1 else 0).

(** What holds of a [HonoSSEServerTransport] from its first [start()]
    on: it holds a writer or its close flag is set. *)
Definition started (t : Hono.HonoSSEServerTransport) : Prop :=
  Hono._writer t <> None \/ Hono._isConnectionClosed t = true.

(** While a [HonoSSEServerTransport] is connected its writer is the one
    of the first stream. *)
Definition on_first_stream (t : Hono.HonoSSEServerTransport) : Prop :=
  Hono.connected t = true -> Hono._writer t = Some 0.


End WithRuntime.

(** All three callbacks assigned, as [Protocol.connect] leaves them. *)
Definition all_assigned : Callbacks := mkCallbacks true true true.

(** The stored secret of a client is past its expiry at time [now]
    (milliseconds): an expiry of [0] means that it never expires. *)
Definition secret_expired (now : Z) (c : ClientAuth.OAuthClientInformationFull) : Prop :=
  match ClientAuth.client_secret_expires_at c with
  | Some e => e <> 0%Z /\ (e < ClientAuth.now_seconds now)%Z
  | None => False
  end.

End Spec.

(* ================================================================== *)
(** ** A sample runtime and sample inputs

    The transports are run on concrete inputs over this runtime.  Each of
    its functions agrees with the real one on the inputs it accepts and
    refuses every other input, which the real one need not; no theorem
    below depends on these choices except the ones that evaluate the model
    on the inputs given here. *)

Module Sample.
Import Js Transport.

(** Values: [null], strings and objects whose properties hold strings. *)
Inductive Json : Type :=
| JNull
| JString (s : string)
| JObject (fields : list (string * string)).

Definition quote : string := String (ascii_of_nat 34) EmptyString.

(** The notification [{"jsonrpc":"2.0","method":"ping"}]. *)
Definition ping : Json :=
  JObject [("jsonrpc", "2.0"); ("method", "ping")].

Definition ping_text : string :=
  "{" ++ quote ++ "jsonrpc" ++ quote ++ ":" ++ quote ++ "2.0" ++ quote ++ ","
  ++ quote ++ "method" ++ quote ++ ":" ++ quote ++ "ping" ++ quote ++ "}".

Fixpoint spaces (n : nat) : string :=
  match n with
  | O => EmptyString
  | S k => String " " (spaces k)
  end.

Fixpoint all_spaces (s : string) : bool :=
  match s with
  | EmptyString => true
  | String c rest => Ascii.eqb c " " && all_spaces rest
  end.

Fixpoint skip (n : nat) (s : string) : string :=
  match n, s with
  | S k, String _ rest => skip k rest
  | _, _ => s
  end.

Definition SyntaxError : Error := mkError "SyntaxError" "Unexpected token".
Definition ZodError : Error := mkError "ZodError" "Invalid input".
Definition media_type_error : Error := mkError "TypeError" "invalid media type".
Definition encoding_error : Error :=
  mkError "UnsupportedMediaTypeError" "specified encoding unsupported".

(** Reads the text of [ping], possibly followed by spaces. *)
Definition JSON_parse (s : string) : Error + Json :=
  if String.prefix ping_text s && all_spaces (skip (String.length ping_text) s)
  then inr ping else inl SyntaxError.

(** [JSON.stringify], for strings in which nothing needs escaping. *)
Definition stringify_property (p : string * string) : string :=
  quote ++ fst p ++ quote ++ ":" ++ quote ++ snd p ++ quote.

Definition JSON_stringify (v : Json) : string :=
  match v with
  | JNull => "null"
  | JString s => quote ++ s ++ quote
  | JObject fields => "{" ++ String.concat "," (map stringify_property fields) ++ "}"
  end.

Definition to_String (v : Json) : string :=
  match v with
  | JNull => "null"
  | JString s => s
  | _ => "[object Object]"
  end.

(** Lets [ping] through. *)
Definition JSONRPCMessageSchema_parse (v : Json) : Error + Json :=
  match v with
  | JObject [("jsonrpc", "2.0"); ("method", "ping")] => inr ping
  | _ => inl ZodError
  end.

Definition contentType_parse (header : string) : Error + ContentType :=
  if String.eqb header "application/json"
  then inr (mkContentType "application/json" None)
  else if String.eqb header "application/json-seq"
  then inr (mkContentType "application/json-seq" None)
  else inl media_type_error.

Definition decode (encoding bytes : string) : Error + string :=
  if String.eqb encoding "utf-8" then inr bytes else inl encoding_error.

#[export] Instance runtime : Runtime := {|
  JsValue := Json;
  JSONRPCMessage := Json;
  is_nullish := fun v => match v with JNull => true | _ => false end;
  typeof_string := fun v => match v with JString s => Some s | _ => None end;
  Transport.to_String := to_String;
  Transport.JSON_parse := JSON_parse;
  Transport.JSON_stringify := JSON_stringify;
  JSON_stringify_message := JSON_stringify;
  Transport.JSONRPCMessageSchema_parse := JSONRPCMessageSchema_parse;
  Transport.contentType_parse := contentType_parse;
  Transport.decode := decode
|}.

(** A request whose body is the text of [ping] followed by [n] spaces. *)
Definition padded_ping (header : string) (n : N) : Request :=
  mkRequest (Some header) (ping_text ++ spaces (N.to_nat n)).

(** A client registered with secret [s1] that expired at second 1. *)
Definition expired_client : ClientAuth.OAuthClientInformationFull :=
  ClientAuth.mkClient "c1" (Some "s1") (Some 1%Z).

(** A client registered with secret [s1] that does not expire. *)
Definition secret_client : ClientAuth.OAuthClientInformationFull :=
  ClientAuth.mkClient "c2" (Some "s1") None.

(** A client registered without a secret. *)
Definition public_client : ClientAuth.OAuthClientInformationFull :=
  ClientAuth.mkClient "c3" None None.

Definition getClient (id : string) : ClientAuth.Lookup :=
  if String.eqb id "c1" then ClientAuth.Found expired_client
  else if String.eqb id "c2" then ClientAuth.Found secret_client
  else if String.eqb id "c3" then ClientAuth.Found public_client
  else ClientAuth.NotFound.

Definition ZodError_text (b : option ClientAuth.Body) : string := "ZodError".

(** 14 November 2023, in milliseconds. *)
Definition now : Z := 1700000000000%Z.

(** An instance of each variant with its stream established; the response
    of the first is a [node:http] one. *)
Definition sse_open : Sse.SSEServerTransport :=
  fst (Sse.start (Sse.new "/message" (Sse.fresh_response true) "id"
                          Spec.all_assigned)).

Definition hono_open : Hono.HonoSSEServerTransport :=
  fst (Hono.start (Hono.new "/message" "id" Spec.all_assigned)).


(** A request with a JSON content type whose body is not JSON. *)
Definition garbled : Request := mkRequest (Some "application/json") "{oops".

End Sample.

(* ================================================================== *)
(** ** The test server of the command line tool (src/cli.ts, [runServer])

    The express application [runServer] sets up when it is given a port:
    two middlewares, then the routes.  Express matches the path of a request
    against the registered ones; the model takes the request with the
    outcome of that match. *)

Module Cli.
Import Js Transport.

(** The method of a request.  A [HEAD] request, which express hands to the
    [GET] routes, counts as [GET]. *)
Inductive Method : Type :=
| GET
| POST
| OPTIONS
| OtherMethod.

(** The registered path a request's path matches, if any. *)
Inductive Path : Type :=
| WellKnownPath   (* /.well-known/oauth-authorization-server *)
| SsePath         (* /sse *)
| MessagePath     (* /message *)
| OtherPath.

(** A request: its method, its path, [req.query.sessionId] and what a
    transport reads of it. *)
Record HttpRequest : Type := mkHttpRequest {
  method : Method;
  path : Path;
  query_sessionId : option string;
  message : Request
}.

(** What a handler sends: nothing, a text, or the metadata document of the
    well-known route. *)
Inductive Body : Type :=
| NoBody
| TextBody (s : string)
| MetadataBody.

Record HttpReply : Type := mkHttpReply {
  reply_status : nat;
  reply_headers : list (string * string);
  reply_body : Body
}.

(** The headers the CORS middleware sets on every response. *)
Definition cors_headers : list (string * string) :=
  [("Access-Control-Allow-Origin", "*");
   ("Access-Control-Allow-Headers", "*");
   ("Access-Control-Allow-Methods", "*");
   ("Access-Control-Allow-Credentials", "true");
   ("Access-Control-Max-Age", "86400")].

(** A request is answered by a handler, or no route takes it and it is left
    to express. *)
Inductive Handled : Type :=
| Replied (r : HttpReply)
| NotRouted.

Section WithRuntime.
Context {R : Runtime}.

(** [servers.map((s) => s.server.transport).find((t) => t.sessionId ===
    sessionId)], followed by [transport.handlePostMessage(req, res)] on the
    transport found: the transports with the one found updated, what it
    wrote to [res] and how its call completed. *)
Fixpoint post_to (servers : list Sse.SSEServerTransport)
         (sessionId : option string) (req : Request)
  : option (list Sse.SSEServerTransport * HttpResponse * Completion Error unit) :=
  match servers with
  | [] => None
  | t :: rest =>
      if strict_eq (Some (Sse.sessionId t)) sessionId then
        match Sse.handlePostMessage t req None with
        | (t', response, completion) => Some (t' :: rest, response, completion)
        end
      else
        match post_to rest sessionId req with
        | Some (rest', response, completion) => Some (t :: rest', response, completion)
        | None => None
        end
  end.

(** The application on one request, for the transports in [servers]: the
    logging middleware passes every request on; the CORS middleware sets
    its headers and answers an [OPTIONS] request itself; then the routes.
    The handler of [/sse] answers 401 and returns before it creates a
    transport. *)
Definition app (servers : list Sse.SSEServerTransport) (req : HttpRequest)
  : list Sse.SSEServerTransport * Handled * Completion Error unit :=
  match method req with
  | OPTIONS => (servers, Replied (mkHttpReply 204 cors_headers NoBody), inr tt)
  | GET =>
      match path req with
      | WellKnownPath =>
          (servers, Replied (mkHttpReply 200 cors_headers MetadataBody), inr tt)
      | SsePath =>
          (servers, Replied (mkHttpReply 401 cors_headers (TextBody "Unauthorized")),
           inr tt)
      | _ => (servers, NotRouted, inr tt)
      end
  | POST =>
      match path req with
      | MessagePath =>
          match post_to servers (query_sessionId req) (message req) with
          | None =>
              (servers,
               Replied (mkHttpReply 404 cors_headers (TextBody "Session not found")),
               inr tt)
          | Some (servers', response, completion) =>
              (servers',
               Replied (mkHttpReply (status response) cors_headers
                                    (TextBody (text response))),
               completion)
          end
      | _ => (servers, NotRouted, inr tt)
      end
  | OtherMethod => (servers, NotRouted, inr tt)
  end.

(** The application on a sequence of requests, from the state [runServer]
    starts with: what each request was answered. *)
Fixpoint serve (servers : list Sse.SSEServerTransport) (reqs : list HttpRequest)
  : list Sse.SSEServerTransport * list Handled :=
  match reqs with
  | [] => (servers, [])
  | req :: rest =>
      match app servers req with
      | (servers', handled, _) =>
          match serve servers' rest with
          | (servers'', answers) => (servers'', handled :: answers)
          end
      end
  end.

(** What [serve] is expected to answer to a request when no session is
    registered. *)
Definition answer_without_sessions (req : HttpRequest) : Handled :=
  match method req, path req with
  | OPTIONS, _ => Replied (mkHttpReply 204 cors_headers NoBody)
  | GET, WellKnownPath => Replied (mkHttpReply 200 cors_headers MetadataBody)
  | GET, SsePath => Replied (mkHttpReply 401 cors_headers (TextBody "Unauthorized"))
  | POST, MessagePath =>
      Replied (mkHttpReply 404 cors_headers (TextBody "Session not found"))
  | _, _ => NotRouted
  end.

End WithRuntime.

End Cli.

(* ================================================================== *)
(** ** Further notions and sample inputs *)

Module More.
Import Js Transport Spec.

(** A body [ClientAuthenticatedRequestSchema] refuses: not an object, a
    [client_id] that is not a string, or a [client_secret] that is neither
    missing nor a string. *)
Definition malformed (b : option ClientAuth.Body) : Prop :=
  match b with
  | None => True
  | Some b =>
      (forall s, ClientAuth.body_client_id b <> ClientAuth.FString s) \/
      ClientAuth.body_client_secret b = ClientAuth.FOther
  end.

(** The checks a client with a stored secret has passed when it is let
    through: the caller supplied that secret and it is not expired. *)
Definition secret_checked (now : Z) (secret : option string)
           (c : ClientAuth.OAuthClientInformationFull) : Prop :=
  truthy_string (ClientAuth.client_secret c) = true ->
  secret = ClientAuth.client_secret c /\ ~ secret_expired now c.

(** A line break. *)
Definition is_line_break (c : ascii) : bool :=
  Ascii.eqb c (ascii_of_nat 10) || Ascii.eqb c (ascii_of_nat 13).

Fixpoint has_line_break (s : string) : bool :=
  match s with
  | EmptyString => false
  | String c rest => is_line_break c || has_line_break rest
  end.

Section WithRuntime.
Context {R : Runtime}.

(** [onclose] has fired once if the close flag is set and the callback is
    assigned, and not at all otherwise. *)
Definition close_counted (t : Hono.HonoSSEServerTransport) : Prop :=
  count_onclose (Hono.log t)
  = if Hono._isConnectionClosed t && onclose (Hono.callbacks t) then 1 else 0.

(** A call of [close()]. *)
Definition is_close (op : Hono.Op) : bool :=
  match op with Hono.Close => true | _ => false end.

(** A close trigger: [close()] or the abort of the request. *)
Definition is_closing (op : Hono.Op) : bool :=
  match op with Hono.Close | Hono.Aborted => true | _ => false end.

End WithRuntime.

(** A store whose lookup fails. *)
Definition failing_store (id : string) : ClientAuth.Lookup :=
  ClientAuth.LookupThrows ClientAuth.ThrownOther.

(** A request carrying [ping] as JSON. *)
Definition ping_post : Request := mkRequest (Some "application/json") Sample.ping_text.

(** A request with the media type of JSON text sequences. *)
Definition json_seq_post : Request :=
  mkRequest (Some "application/json-seq") Sample.ping_text.

End More.

Unset Implicit Arguments.

(* ================================================================== *)
(** ** Properties of [authenticateClient] *)

Module ClientAuthProps.
Import Js ClientAuth Spec.

Lemma truthy_string_Some (s : string) :
  s <> "" -> truthy_string (Some s) = true.
Proof.
  intros Hs. unfold truthy_string.
  destruct (String.eqb_spec s ""); [contradiction | reflexivity].
Qed.

Section Checks.
Variable getClient : string -> Lookup.
Variable ZodError_text : option Body -> string.
Variable now : Z.

Let auth := authenticateClient getClient ZodError_text now.

(** The middleware on a well-formed body, once the client is found and
    has a stored (non-empty) secret: the three checks in the order the
    code makes them. *)
Lemma with_stored_secret (id s : string) (secret : option string)
      (client : OAuthClientInformationFull) :
  getClient id = Found client ->
  client_secret client = Some s ->
  s <> "" ->
  auth (well_formed id secret) =
  if negb (truthy_string secret) then invalid_client "Client secret is required"
  else if negb (strict_eq (Some s) secret) then invalid_client "Invalid client_secret"
  else if truthy_number (client_secret_expires_at client)
          && match client_secret_expires_at client with
             | Some e => (e <? now_seconds now)%Z
             | None => false
             end
       then invalid_client "Client secret has expired"
       else Next client.
Proof.
  intros Hget Hsec Hs.
  unfold auth, authenticateClient, authenticate, well_formed.
  assert (Hparse : safeParse
            (Some (mkBody (FString id)
               (match secret with Some x => FString x | None => FUndefined end)))
          = Some (id, secret)) by (destruct secret; reflexivity).
  rewrite Hparse, Hget, Hsec, (truthy_string_Some s Hs).
  destruct (negb (truthy_string secret)); [reflexivity|].
  destruct (negb (strict_eq (Some s) secret)); [reflexivity|].
  destruct (truthy_number (client_secret_expires_at client) && _); reflexivity.
Qed.

Lemma expired_test (client : OAuthClientInformationFull) :
  secret_expired now client ->
  truthy_number (client_secret_expires_at client)
  && match client_secret_expires_at client with
     | Some e => (e <? now_seconds now)%Z
     | None => false
     end = true.
Proof.
  unfold secret_expired. destruct (client_secret_expires_at client) as [e|]; [|tauto].
  intros [Hz Hlt]. simpl.
  apply andb_true_intro; split.
  - apply negb_true_iff, Z.eqb_neq; exact Hz.
  - apply Z.ltb_lt; exact Hlt.
Qed.

Lemma unexpired_test (client : OAuthClientInformationFull) :
  ~ secret_expired now client ->
  truthy_number (client_secret_expires_at client)
  && match client_secret_expires_at client with
     | Some e => (e <? now_seconds now)%Z
     | None => false
     end = false.
Proof.
  unfold secret_expired. destruct (client_secret_expires_at client) as [e|];
    [|reflexivity].
  intros Hn. simpl.
  destruct (Z.eqb_spec e 0); [reflexivity|]. simpl.
  apply Z.ltb_ge. destruct (Z.lt_ge_cases e (now_seconds now)); [|assumption].
  exfalso; apply Hn; split; assumption.
Qed.

(** C1, as amended.  A client whose stored, non-empty secret is past a
    non-zero expiry is rejected with [invalid_client] whatever secret
    the caller supplies.  The description says that the secret has
    expired when the supplied secret is the stored one; a different
    non-empty secret is reported as invalid and a missing or empty one
    as required, because the secret is compared before the expiry is
    looked at. *)
Theorem expired_secret_rejected (id s : string) (secret : option string)
        (client : OAuthClientInformationFull) :
  getClient id = Found client ->
  client_secret client = Some s ->
  s <> "" ->
  secret_expired now client ->
  auth (well_formed id secret) =
  invalid_client
    match secret with
    | None => "Client secret is required"
    | Some supplied =>
        if String.eqb supplied "" then "Client secret is required"
        else if String.eqb s supplied then "Client secret has expired"
        else "Invalid client_secret"
    end.
Proof.
  intros Hget Hsec Hs Hexp.
  rewrite (with_stored_secret id s secret client Hget Hsec Hs).
  rewrite (expired_test client Hexp).
  destruct secret as [supplied|]; simpl; [|reflexivity].
  destruct (String.eqb supplied ""); simpl; [reflexivity|].
  destruct (String.eqb s supplied); reflexivity.
Qed.

(** C8, as amended.  On a well-formed body: an unknown [client_id] is
    rejected with "Invalid client_id"; a client without a stored secret
    (none, or an empty one) is let through whatever the caller sends; a
    client with a stored, unexpired secret is let through exactly when
    the caller supplies that secret, a missing or empty secret being
    reported as required and any other one as invalid. *)
Theorem authentication_cases (id : string) (secret : option string) :
  (getClient id = NotFound ->
   auth (well_formed id secret) = invalid_client "Invalid client_id") /\
  (forall client,
     getClient id = Found client ->
     truthy_string (client_secret client) = false ->
     auth (well_formed id secret) = Next client) /\
  (forall client s,
     getClient id = Found client ->
     client_secret client = Some s ->
     s <> "" ->
     ~ secret_expired now client ->
     (auth (well_formed id secret) = Next client <-> secret = Some s) /\
     (truthy_string secret = false ->
      auth (well_formed id secret) = invalid_client "Client secret is required") /\
     (forall supplied,
        secret = Some supplied -> supplied <> "" -> supplied <> s ->
        auth (well_formed id secret) = invalid_client "Invalid client_secret")).
Proof.
  assert (Hparse : safeParse (well_formed id secret) = Some (id, secret))
    by (destruct secret; reflexivity).
  split; [|split].
  - intros Hget. unfold auth, authenticateClient, authenticate.
    rewrite Hparse, Hget. reflexivity.
  - intros client Hget Hno. unfold auth, authenticateClient, authenticate.
    rewrite Hparse, Hget, Hno. reflexivity.
  - intros client s Hget Hsec Hs Hexp.
    rewrite (with_stored_secret id s secret client Hget Hsec Hs).
    rewrite (unexpired_test client Hexp).
    split; [|split].
    + destruct secret as [supplied|]; simpl.
      * destruct (String.eqb_spec supplied ""); simpl.
        -- subst supplied. split; [discriminate|].
           intros H; inversion H; congruence.
        -- destruct (String.eqb_spec s supplied); simpl.
           ++ subst. split; reflexivity.
           ++ split; [discriminate|]. intros H; inversion H; congruence.
      * split; discriminate.
    + intros Hf. rewrite Hf. reflexivity.
    + intros supplied -> Hne Hdiff.
      rewrite (truthy_string_Some supplied Hne). simpl.
      destruct (String.eqb_spec s supplied); [congruence | reflexivity].
Qed.

End Checks.

(** C1 fails as stated: the sample client [c1] has the secret [s1],
    expired since second 1; a caller supplying [wrong] is told that the
    secret is invalid, not that it has expired. *)
Lemma expired_secret_mismatch_reported_invalid :
  client_secret Sample.expired_client = Some "s1" /\
  secret_expired Sample.now Sample.expired_client /\
  authenticateClient Sample.getClient Sample.ZodError_text Sample.now
    (well_formed "c1" (Some "wrong"))
  = invalid_client "Invalid client_secret" /\
  authenticateClient Sample.getClient Sample.ZodError_text Sample.now
    (well_formed "c1" (Some "wrong"))
  <> invalid_client "Client secret has expired".
Proof.
  split; [reflexivity|]. split; [split; [discriminate | reflexivity]|].
  split; [reflexivity | discriminate].
Qed.

Lemma expired_secret_rejected_witness :
  authenticateClient Sample.getClient Sample.ZodError_text Sample.now
    (well_formed "c1" (Some "s1"))
  = invalid_client "Client secret has expired".
Proof.
  apply (@expired_secret_rejected Sample.getClient Sample.ZodError_text Sample.now
           "c1" "s1" (Some "s1") Sample.expired_client).
  - reflexivity.
  - reflexivity.
  - discriminate.
  - split; [discriminate | reflexivity].
Defined.

(** C8 fails as stated: the sample client [c2] has the unexpired secret
    [s1]; a caller supplying the empty string, which differs from [s1],
    is told that a secret is required, not that the secret is invalid. *)
Lemma empty_secret_reported_required :
  client_secret Sample.secret_client = Some "s1" /\
  ~ secret_expired Sample.now Sample.secret_client /\
  Some "" <> Some "s1" /\
  authenticateClient Sample.getClient Sample.ZodError_text Sample.now
    (well_formed "c2" (Some ""))
  = invalid_client "Client secret is required" /\
  authenticateClient Sample.getClient Sample.ZodError_text Sample.now
    (well_formed "c2" (Some ""))
  <> invalid_client "Invalid client_secret".
Proof.
  split; [reflexivity|]. split; [intros H; exact H|].
  split; [discriminate|]. split; [reflexivity | discriminate].
Qed.

Lemma authentication_cases_witness :
  authenticateClient Sample.getClient Sample.ZodError_text Sample.now
    (well_formed "nobody" (Some "s1"))
  = invalid_client "Invalid client_id" /\
  authenticateClient Sample.getClient Sample.ZodError_text Sample.now
    (well_formed "c3" None)
  = Next Sample.public_client /\
  authenticateClient Sample.getClient Sample.ZodError_text Sample.now
    (well_formed "c2" (Some "s1"))
  = Next Sample.secret_client /\
  authenticateClient Sample.getClient Sample.ZodError_text Sample.now
    (well_formed "c2" None)
  = invalid_client "Client secret is required" /\
  authenticateClient Sample.getClient Sample.ZodError_text Sample.now
    (well_formed "c2" (Some "wrong"))
  = invalid_client "Invalid client_secret".
Proof.
  split; [|split; [|split; [|split]]].
  - apply (proj1 (@authentication_cases Sample.getClient Sample.ZodError_text
                    Sample.now "nobody" (Some "s1"))).
    reflexivity.
  - apply (proj1 (proj2 (@authentication_cases Sample.getClient Sample.ZodError_text
                           Sample.now "c3" None))).
    + reflexivity.
    + reflexivity.
  - apply (proj1 (proj2 (proj2 (@authentication_cases Sample.getClient
              Sample.ZodError_text Sample.now "c2" (Some "s1")))
            Sample.secret_client "s1" eq_refl eq_refl
            ltac:(discriminate) ltac:(intros H; exact H))).
    reflexivity.
  - apply (proj1 (proj2 (proj2 (proj2 (@authentication_cases Sample.getClient
              Sample.ZodError_text Sample.now "c2" None))
            Sample.secret_client "s1" eq_refl eq_refl
            ltac:(discriminate) ltac:(intros H; exact H)))).
    reflexivity.
  - apply (proj2 (proj2 (proj2 (proj2 (@authentication_cases Sample.getClient
              Sample.ZodError_text Sample.now "c2" (Some "wrong")))
            Sample.secret_client "s1" eq_refl eq_refl
            ltac:(discriminate) ltac:(intros H; exact H))) "wrong" eq_refl);
      discriminate.
Defined.

End ClientAuthProps.

(* ================================================================== *)
(** ** Properties of the transports *)

Module TransportProps.
Import Js Transport Spec.

Lemma or_else_Some (h : string) : or_else (Some h) "" = h.
Proof.
  unfold or_else, truthy_string.
  destruct (String.eqb_spec h ""); simpl; congruence.
Qed.

Lemma append_assoc (a b c : string) : (a ++ b) ++ c = a ++ (b ++ c).
Proof. induction a as [|x a IH]; simpl; [reflexivity | rewrite IH; reflexivity]. Qed.

(** The frame [writeEvent] builds for the endpoint. *)
Lemma endpoint_frame (url sessionId : string) :
  sse_event "endpoint" (url ++ "?sessionId=" ++ sessionId)
  = endpoint_event url sessionId.
Proof.
  unfold sse_event, endpoint_event. simpl.
  rewrite append_assoc. reflexivity.
Qed.

Section WithRuntime.
Context {R : Runtime}.

(** *** The callback log *)

Lemma count_onclose_app (l1 l2 : list Event) :
  count_onclose (l1 ++ l2)%list = count_onclose l1 + count_onclose l2.
Proof.
  unfold count_onclose. rewrite filter_app, length_app. reflexivity.
Qed.

Lemma count_onclose_fire (b : bool) (e : Event) (l : list Event) :
  count_onclose (fire b e l) =
  count_onclose l + (if b && is_onclose e then 1 else 0).
Proof.
  unfold fire. destruct b; simpl; [|lia].
  rewrite count_onclose_app. unfold count_onclose at 2. simpl.
  destruct (is_onclose e); reflexivity.
Qed.





(** *** C10 *)

(** C10.  [handlePostMessage] on a transport whose stream is not
    established (never started, or closed): [SSEServerTransport] writes
    a 500 response with the body "SSE connection not established" and
    rejects with an [Error] carrying that message; under the same
    condition [HonoSSEServerTransport] resolves with the 500 response.
    Neither changes the transport. *)
Theorem post_without_stream
        (t : Sse.SSEServerTransport) (h : Hono.HonoSSEServerTransport)
        (req : Request) (parsedBody : option JsValue) :
  (Sse._sseResponse t = false ->
   Sse.handlePostMessage t req parsedBody =
   (t, mkHttpResponse 500 "SSE connection not established",
    inl (new_Error "SSE connection not established"))) /\
  (Hono.connected h = false ->
   Hono.handlePostMessage h req parsedBody =
   (h, inr (mkHttpResponse 500 "SSE connection not established"))).
Proof.
  split; intros Hoff.
  - unfold Sse.handlePostMessage. rewrite Hoff. reflexivity.
  - unfold Hono.handlePostMessage. rewrite Hoff. reflexivity.
Qed.

(** *** C2 *)

(** C2, on [SSEServerTransport]: after [start()], a call of [close()]
    followed by the response's ['close'] event invokes [onclose]
    twice. *)
Theorem sse_onclose_fires_twice (endpoint sessionId : string) (strict : bool) :
  count_onclose
    (Sse.log (Sse.run (Sse.new endpoint (Sse.fresh_response strict) sessionId
                               all_assigned)
                      [Sse.Start; Sse.Close; Sse.ResponseClosed]))
  = 2.
Proof. reflexivity. Qed.

(** [handleConnectionClose] keeps the guard, and so does running it any
    number of times. *)
Lemma handleConnectionClose_guarded (t : Hono.HonoSSEServerTransport) :
  close_guarded t -> close_guarded (Hono.handleConnectionClose t).
Proof.
  unfold close_guarded, Hono.handleConnectionClose.
  destruct (Hono._isConnectionClosed t) eqn:Hc; simpl; [rewrite Hc; trivial|].
  intros Hle. rewrite count_onclose_fire.
  destruct (onclose (Hono.callbacks t)); simpl; lia.
Qed.

Lemma iter_guarded (n : nat) (t : Hono.HonoSSEServerTransport) :
  close_guarded t -> close_guarded (Nat.iter n Hono.handleConnectionClose t).
Proof.
  intros Ht. induction n as [|n IH]; simpl; [exact Ht|].
  apply handleConnectionClose_guarded, IH.
Qed.

Lemma writeEvent_fields (t : Hono.HonoSSEServerTransport) (event data : string) :
  let t' := fst (Hono.writeEvent t event data) in
  Hono._writer t' = Hono._writer t /\
  Hono._isConnectionClosed t' = Hono._isConnectionClosed t /\
  Hono.log t' = Hono.log t /\
  Hono.callbacks t' = Hono.callbacks t /\
  Hono.abort_listeners t' = Hono.abort_listeners t.
Proof.
  cbv zeta. unfold Hono.writeEvent.
  destruct (Hono._writer t) eqn:Hw;
    [destruct (Hono._isConnectionClosed t) eqn:Hc|];
    simpl; rewrite ?Hw, ?Hc; repeat split.
Qed.

Lemma hono_start_fields (t : Hono.HonoSSEServerTransport) :
  let t' := fst (Hono.start t) in
  Hono._isConnectionClosed t' = Hono._isConnectionClosed t /\
  Hono.log t' = Hono.log t /\
  Hono.callbacks t' = Hono.callbacks t.
Proof.
  cbv zeta. unfold Hono.start, Hono.writeEvent.
  destruct (Hono._writer t) eqn:Hw; simpl; [repeat split|].
  destruct (Hono._isConnectionClosed t) eqn:Hc; simpl; rewrite ?Hc; repeat split.
Qed.

Lemma hono_handleMessage_fields (t : Hono.HonoSSEServerTransport) (v : JsValue) :
  let t' := fst (Hono.handleMessage t v) in
  Hono._writer t' = Hono._writer t /\
  Hono._isConnectionClosed t' = Hono._isConnectionClosed t /\
  Hono.wire t' = Hono.wire t /\
  count_onclose (Hono.log t') = count_onclose (Hono.log t).
Proof.
  cbv zeta. unfold Hono.handleMessage.
  destruct (JSONRPCMessageSchema_parse v); simpl; repeat split;
    rewrite count_onclose_fire, andb_false_r; lia.
Qed.

Lemma hono_handlePostMessage_fields (t : Hono.HonoSSEServerTransport)
      (req : Request) (parsedBody : option JsValue) :
  let t' := fst (Hono.handlePostMessage t req parsedBody) in
  Hono._writer t' = Hono._writer t /\
  Hono._isConnectionClosed t' = Hono._isConnectionClosed t /\
  Hono.wire t' = Hono.wire t /\
  count_onclose (Hono.log t') = count_onclose (Hono.log t).
Proof.
  cbv zeta. unfold Hono.handlePostMessage.
  destruct (negb (Hono.connected t)); simpl; [repeat split|].
  destruct (Hono.read_body req parsedBody) as [e|body]; simpl.
  - repeat split. rewrite count_onclose_fire, andb_false_r; lia.
  - pose proof (hono_handleMessage_fields t body) as H.
    destruct (Hono.handleMessage t body) as [t' [e|u]]; exact H.
Qed.

Lemma hono_send_fields (t : Hono.HonoSSEServerTransport) (m : JSONRPCMessage) :
  let t' := fst (Hono.send t m) in
  Hono._writer t' = Hono._writer t /\
  Hono._isConnectionClosed t' = Hono._isConnectionClosed t /\
  Hono.log t' = Hono.log t.
Proof.
  cbv zeta. unfold Hono.send.
  destruct (negb (Hono.connected t)); simpl; [repeat split|].
  pose proof (writeEvent_fields t "message" (JSON_stringify_message m)) as H.
  simpl in H. tauto.
Qed.

Lemma hono_step_guarded (t : Hono.HonoSSEServerTransport) (op : Hono.Op) :
  close_guarded t -> close_guarded (Hono.step t op).
Proof.
  intros Ht. destruct op as [|req pb|v| |m|]; simpl.
  - pose proof (hono_start_fields t) as (Hc & Hl & _). simpl in *.
    unfold close_guarded. rewrite Hc, Hl. exact Ht.
  - pose proof (hono_handlePostMessage_fields t req pb) as (_ & Hc & _ & Hl).
    simpl in *. unfold close_guarded. rewrite Hc, Hl. exact Ht.
  - pose proof (hono_handleMessage_fields t v) as (_ & Hc & _ & Hl).
    simpl in *. unfold close_guarded. rewrite Hc, Hl. exact Ht.
  - apply handleConnectionClose_guarded, Ht.
  - pose proof (hono_send_fields t m) as (_ & Hc & Hl). simpl in *.
    unfold close_guarded. rewrite Hc, Hl. exact Ht.
  - apply iter_guarded, Ht.
Qed.

Lemma hono_run_guarded (ops : list Hono.Op) (t : Hono.HonoSSEServerTransport) :
  close_guarded t -> close_guarded (Hono.run t ops).
Proof.
  revert t. induction ops as [|op ops IH]; intros t Ht; simpl; [exact Ht|].
  apply IH, hono_step_guarded, Ht.
Qed.

(** On [HonoSSEServerTransport], whatever happens to an instance,
    [onclose] is invoked at most once. *)
Lemma hono_onclose_at_most_once (endpoint sessionId : string) (cb : Callbacks)
      (ops : list Hono.Op) :
  count_onclose (Hono.log (Hono.run (Hono.new endpoint sessionId cb) ops)) <= 1.
Proof.
  assert (H : close_guarded (Hono.run (Hono.new endpoint sessionId cb) ops)).
  { apply hono_run_guarded. unfold close_guarded, count_onclose. simpl. lia. }
  unfold close_guarded in H.
  destruct (Hono._isConnectionClosed _); lia.
Qed.

(** *** C3 *)

(** [SSEServerTransport] answers 400 to a request whose media type is
    not [application/json]: the error goes to [onerror], the body is
    neither read nor validated and nothing reaches [onmessage]. *)
Lemma sse_rejects_other_media_types (t : Sse.SSEServerTransport)
      (req : Request) (parsedBody : option JsValue) :
  Sse._sseResponse t = true ->
  is_json_media_type (content_type req) = false ->
  exists error,
    Sse.read_body req parsedBody = inl error /\
    Sse.handlePostMessage t req parsedBody =
    (Sse.with_log t (fire (onerror (Sse.callbacks t)) (OnError error) (Sse.log t)),
     mkHttpResponse 400 (String_of_Error error), inr tt).
Proof.
  intros Hon Hct. unfold Sse.handlePostMessage, Sse.read_body. rewrite Hon. simpl.
  unfold is_json_media_type in Hct.
  destruct (contentType_parse (nullish_else (content_type req) "")) as [e|ct].
  - exists e. split; reflexivity.
  - rewrite Hct. simpl. eexists. split; reflexivity.
Qed.

(** What [HonoSSEServerTransport] does with a body it took and the
    schema lets through. *)
Lemma hono_accepts (t : Hono.HonoSSEServerTransport) (req : Request)
      (parsedBody : option JsValue) (v : JsValue) (m : JSONRPCMessage) :
  Hono.connected t = true ->
  Hono.read_body req parsedBody = inr v ->
  JSONRPCMessageSchema_parse v = inr m ->
  Hono.handlePostMessage t req parsedBody =
  (Hono.with_log t (fire (onmessage (Hono.callbacks t)) (OnMessage m) (Hono.log t)),
   inr (mkHttpResponse 202 "Accepted")).
Proof.
  intros Hon Hbody Hm. unfold Hono.handlePostMessage, Hono.handleMessage.
  rewrite Hon, Hbody, Hm. reflexivity.
Qed.

(** C3, on [HonoSSEServerTransport]: a request whose [Content-Type]
    merely contains the text [application/json], while its media type is
    another one, is not rejected; its body is validated and, when the
    schema lets it through, handed to [onmessage] and answered 202. *)
Theorem hono_accepts_other_media_types (t : Hono.HonoSSEServerTransport)
        (header body : string) (v : JsValue) (m : JSONRPCMessage) :
  Hono.connected t = true ->
  is_json_media_type (Some header) = false ->
  includes header "application/json" = true ->
  is_nullish v = false ->
  JSONRPCMessageSchema_parse v = inr m ->
  Hono.handlePostMessage t (mkRequest (Some header) body) (Some v) =
  (Hono.with_log t (fire (onmessage (Hono.callbacks t)) (OnMessage m) (Hono.log t)),
   inr (mkHttpResponse 202 "Accepted")).
Proof.
  intros Hon _ Hinc Hv Hm. apply hono_accepts with (v := v); try assumption.
  unfold Hono.read_body, given. simpl.
  rewrite or_else_Some, Hinc, Hv. reflexivity.
Qed.

(** *** C4 *)

(** [SSEServerTransport] answers 400 to a request whose body, read by
    the transport, is larger than [MAXIMUM_MESSAGE_SIZE]; nothing
    reaches [onmessage]. *)
Lemma sse_rejects_oversized_body (t : Sse.SSEServerTransport) (req : Request)
      (parsedBody : option JsValue) :
  Sse._sseResponse t = true ->
  given parsedBody = None ->
  oversized req ->
  exists error,
    Sse.handlePostMessage t req parsedBody =
    (Sse.with_log t (fire (onerror (Sse.callbacks t)) (OnError error) (Sse.log t)),
     mkHttpResponse 400 (String_of_Error error), inr tt).
Proof.
  intros Hon Hgiven Hbig.
  assert (Hread : exists error, Sse.read_body req parsedBody = inl error).
  { unfold Sse.read_body.
    destruct (contentType_parse _) as [e|ct]; [eauto|].
    destruct (negb _); [eauto|].
    rewrite Hgiven. unfold getRawBody.
    unfold oversized in Hbig. apply N.ltb_lt in Hbig. rewrite Hbig. eauto. }
  destruct Hread as [error Hread]. exists error.
  unfold Sse.handlePostMessage. rewrite Hon, Hread. reflexivity.
Qed.

(** C4, on [HonoSSEServerTransport]: a body larger than
    [MAXIMUM_MESSAGE_SIZE] is not rejected.  [context.req.json()] reads
    it whole; when it parses to a message the schema lets through, the
    message is handed to [onmessage] and the request answered 202. *)
Theorem hono_accepts_oversized_body (t : Hono.HonoSSEServerTransport)
        (req : Request) (v : JsValue) (m : JSONRPCMessage) :
  Hono.connected t = true ->
  oversized req ->
  includes (or_else (content_type req) "") "application/json" = true ->
  JSON_parse (payload req) = inr v ->
  JSONRPCMessageSchema_parse v = inr m ->
  Hono.handlePostMessage t req None =
  (Hono.with_log t (fire (onmessage (Hono.callbacks t)) (OnMessage m) (Hono.log t)),
   inr (mkHttpResponse 202 "Accepted")).
Proof.
  intros Hon _ Hinc Hv Hm. apply hono_accepts with (v := v); try assumption.
  unfold Hono.read_body, given. rewrite Hinc. simpl. exact Hv.
Qed.

(** *** C5 *)


Lemma sse_start_head_sent (t : Sse.SSEServerTransport) :
  head_sent t ->
  Sse.start t = (t, inl Sse.already_started) \/
  Sse.start t = (t, inl ERR_HTTP_HEADERS_SENT).
Proof.
  intros [Hstrict Hheads]. unfold Sse.start, Sse.writeHead.
  destruct (Sse._sseResponse t); [left; reflexivity|].
  destruct (Sse.heads (Sse.res t)); [congruence|].
  rewrite Hstrict. right; reflexivity.
Qed.

Lemma hono_start_while_open (t : Hono.HonoSSEServerTransport) (w : nat) :
  Hono._writer t = Some w -> Hono.start t = (t, inl Hono.already_started).
Proof. intros Hw. unfold Hono.start. rewrite Hw. reflexivity. Qed.


Lemma handleConnectionClose_closes (t : Hono.HonoSSEServerTransport) :
  Hono._isConnectionClosed (Hono.handleConnectionClose t) = true.
Proof.
  unfold Hono.handleConnectionClose.
  destruct (Hono._isConnectionClosed t) eqn:Hc; simpl; [exact Hc | reflexivity].
Qed.

Lemma iter_started (n : nat) (t : Hono.HonoSSEServerTransport) :
  started t -> started (Nat.iter n Hono.handleConnectionClose t).
Proof.
  intros Ht. destruct n as [|n]; simpl; [exact Ht|].
  right. apply handleConnectionClose_closes.
Qed.

Lemma hono_start_started (t : Hono.HonoSSEServerTransport) :
  started (fst (Hono.start t)).
Proof.
  unfold started, Hono.start, Hono.writeEvent.
  destruct (Hono._writer t) as [w|] eqn:Hw; simpl.
  - left. congruence.
  - destruct (Hono._isConnectionClosed t); simpl; left; discriminate.
Qed.

Lemma hono_step_started (t : Hono.HonoSSEServerTransport) (op : Hono.Op) :
  started t -> started (Hono.step t op).
Proof.
  intros Ht. destruct op as [|req pb|v| |m|]; simpl.
  - apply hono_start_started.
  - pose proof (hono_handlePostMessage_fields t req pb) as (Hw & Hc & _).
    simpl in *. unfold started. rewrite Hw, Hc. exact Ht.
  - pose proof (hono_handleMessage_fields t v) as (Hw & Hc & _).
    simpl in *. unfold started. rewrite Hw, Hc. exact Ht.
  - right. apply handleConnectionClose_closes.
  - pose proof (hono_send_fields t m) as (Hw & Hc & _). simpl in *.
    unfold started. rewrite Hw, Hc. exact Ht.
  - apply iter_started, Ht.
Qed.



(** *** C6 *)





Lemma hono_send_closed (t : Hono.HonoSSEServerTransport) (m : JSONRPCMessage) :
  Hono._isConnectionClosed t = true ->
  Hono.send t m = (t, inl Hono.not_connected).
Proof.
  intros Hc. unfold Hono.send, Hono.connected. rewrite Hc.
  destruct (Hono._writer t); reflexivity.
Qed.

Lemma hono_iter_closed (n : nat) (t : Hono.HonoSSEServerTransport) :
  Hono._isConnectionClosed t = true \/ n <> 0 ->
  Hono._isConnectionClosed (Nat.iter n Hono.handleConnectionClose t) = true.
Proof.
  intros H. destruct n as [|n]; simpl; [|apply handleConnectionClose_closes].
  destruct H as [H|H]; [exact H | congruence].
Qed.

Lemma hono_step_stays_closed (t : Hono.HonoSSEServerTransport) (op : Hono.Op) :
  Hono._isConnectionClosed t = true ->
  Hono._isConnectionClosed (Hono.step t op) = true.
Proof.
  intros Hc. destruct op as [|req pb|v| |m|]; simpl.
  - pose proof (hono_start_fields t) as (H & _). simpl in H. congruence.
  - pose proof (hono_handlePostMessage_fields t req pb) as (_ & H & _).
    simpl in H. congruence.
  - pose proof (hono_handleMessage_fields t v) as (_ & H & _).
    simpl in H. congruence.
  - apply handleConnectionClose_closes.
  - pose proof (hono_send_fields t m) as (_ & H & _). simpl in H. congruence.
  - apply hono_iter_closed. left; exact Hc.
Qed.

Lemma hono_run_stays_closed (ops : list Hono.Op) (t : Hono.HonoSSEServerTransport) :
  Hono._isConnectionClosed t = true ->
  Hono._isConnectionClosed (Hono.run t ops) = true.
Proof.
  revert t. induction ops as [|op ops IH]; intros t Hc; simpl; [exact Hc|].
  apply IH, hono_step_stays_closed, Hc.
Qed.


(** *** C7 *)












(** *** C9 *)

Lemma sse_iter_res (n : nat) (t : Sse.SSEServerTransport) :
  Sse.res (Nat.iter n Sse.close_listener t) = Sse.res t.
Proof. induction n as [|n IH]; simpl; [reflexivity | exact IH]. Qed.

Lemma sse_handleMessage_res (t : Sse.SSEServerTransport) (v : JsValue) :
  Sse.res (fst (Sse.handleMessage t v)) = Sse.res t.
Proof.
  unfold Sse.handleMessage. destruct (JSONRPCMessageSchema_parse v); reflexivity.
Qed.

Lemma sse_handlePostMessage_res (t : Sse.SSEServerTransport) (req : Request)
      (parsedBody : option JsValue) :
  Sse.res (fst (fst (Sse.handlePostMessage t req parsedBody))) = Sse.res t.
Proof.
  unfold Sse.handlePostMessage.
  destruct (negb (Sse._sseResponse t)); [reflexivity|].
  destruct (Sse.read_body req parsedBody) as [e|body]; [reflexivity|].
  destruct (Sse.parse_body body) as [e|v]; [reflexivity|].
  pose proof (sse_handleMessage_res t v) as H.
  destruct (Sse.handleMessage t v) as [t' [e|u]]; exact H.
Qed.

(** A step other than a [start()] that goes through writes message
    frames only, and leaves the head of the response as it is. *)
Lemma sse_step_written (t : Sse.SSEServerTransport) (op : Sse.Op) :
  Sse.is_start op = false \/ head_sent t ->
  (exists ms,
      Sse.written (Sse.res (Sse.step t op))
      = (Sse.written (Sse.res t) ++ map message_event ms)%list) /\
  (head_sent t -> head_sent (Sse.step t op)).
Proof.
  intros Hop. destruct op as [|req pb|v| |m|]; simpl.
  - destruct Hop as [Hop|Hop]; [discriminate|].
    destruct (sse_start_head_sent t Hop) as [H|H]; rewrite H; simpl;
      (split; [exists []; simpl; symmetry; apply app_nil_r | trivial]).
  - unfold head_sent. rewrite sse_handlePostMessage_res.
    split; [exists []; simpl; symmetry; apply app_nil_r | trivial].
  - unfold head_sent. rewrite sse_handleMessage_res.
    split; [exists []; simpl; symmetry; apply app_nil_r | trivial].
  - unfold head_sent. destruct (Sse._sseResponse t); simpl;
      (split; [exists []; simpl; symmetry; apply app_nil_r | trivial]).
  - unfold head_sent, Sse.send. destruct (negb (Sse._sseResponse t)); simpl.
    + split; [exists []; simpl; symmetry; apply app_nil_r | trivial].
    + split; [exists [m]; reflexivity | trivial].
  - unfold head_sent, Sse.emit_close. rewrite sse_iter_res.
    split; [exists []; simpl; symmetry; apply app_nil_r | trivial].
Qed.

Lemma sse_run_written (ops : list Sse.Op) (t : Sse.SSEServerTransport) :
  no_start ops \/ head_sent t ->
  exists ms,
    Sse.written (Sse.res (Sse.run t ops))
    = (Sse.written (Sse.res t) ++ map message_event ms)%list.
Proof.
  unfold no_start.
  revert t. induction ops as [|op ops IH]; intros t H; simpl.
  - exists []. simpl. symmetry; apply app_nil_r.
  - assert (Hop : Sse.is_start op = false \/ head_sent t).
    { destruct H as [H|H]; [left | right; exact H].
      simpl in H. apply andb_prop in H. apply negb_true_iff, (proj1 H). }
    destruct (sse_step_written t op Hop) as [[ms1 H1] Hkeep].
    destruct (IH (Sse.step t op)) as [ms2 H2].
    { destruct H as [H|H]; [left | right; apply Hkeep, H].
      simpl in H. apply andb_prop in H. exact (proj2 H). }
    exists (ms1 ++ ms2)%list.
    rewrite H2, H1, map_app, app_assoc. reflexivity.
Qed.

Lemma closed_not_connected (t : Hono.HonoSSEServerTransport) :
  Hono._isConnectionClosed t = true -> Hono.connected t = false.
Proof.
  intros Hc. unfold Hono.connected. rewrite Hc.
  destruct (Hono._writer t); reflexivity.
Qed.

Lemma handleConnectionClose_wire (t : Hono.HonoSSEServerTransport) :
  Hono.wire (Hono.handleConnectionClose t) = Hono.wire t.
Proof.
  unfold Hono.handleConnectionClose.
  destruct (negb (Hono._isConnectionClosed t)); reflexivity.
Qed.

Lemma hono_iter_wire (n : nat) (t : Hono.HonoSSEServerTransport) :
  Hono.wire (Nat.iter n Hono.handleConnectionClose t) = Hono.wire t.
Proof.
  induction n as [|n IH]; simpl; [reflexivity|].
  rewrite handleConnectionClose_wire. exact IH.
Qed.

Lemma hono_iter_first (n : nat) (t : Hono.HonoSSEServerTransport) :
  on_first_stream t -> on_first_stream (Nat.iter n Hono.handleConnectionClose t).
Proof.
  intros Ht. destruct n as [|n]; simpl; [exact Ht|].
  unfold on_first_stream.
  rewrite (closed_not_connected _ (handleConnectionClose_closes _)). discriminate.
Qed.

(** Once started, a step writes message frames only, and only to the
    first stream. *)
Lemma hono_step_wire (t : Hono.HonoSSEServerTransport) (op : Hono.Op) :
  started t -> on_first_stream t ->
  (exists ms,
      Hono.wire (Hono.step t op)
      = (Hono.wire t ++ map (fun m => (0, message_event m)) ms)%list) /\
  on_first_stream (Hono.step t op).
Proof.
  intros Hs Hf. unfold on_first_stream in *.
  destruct op as [|req pb|v| |m|]; simpl.
  - destruct (Hono._writer t) as [w|] eqn:Hw.
    + rewrite (hono_start_while_open t w Hw). simpl.
      split; [exists []; simpl; symmetry; apply app_nil_r | rewrite Hw; exact Hf].
    + destruct Hs as [Hs|Hs]; [congruence|].
      unfold Hono.start, Hono.writeEvent. rewrite Hw. simpl. rewrite Hs. simpl.
      split; [exists []; simpl; symmetry; apply app_nil_r|].
      unfold Hono.connected. simpl. discriminate.
  - pose proof (hono_handlePostMessage_fields t req pb) as (Hw & Hc & Hwire & _).
    simpl in *. unfold Hono.connected in *. rewrite Hw, Hc, Hwire.
    split; [exists []; simpl; symmetry; apply app_nil_r | exact Hf].
  - pose proof (hono_handleMessage_fields t v) as (Hw & Hc & Hwire & _).
    simpl in *. unfold Hono.connected in *. rewrite Hw, Hc, Hwire.
    split; [exists []; simpl; symmetry; apply app_nil_r | exact Hf].
  - rewrite handleConnectionClose_wire.
    split; [exists []; simpl; symmetry; apply app_nil_r|].
    rewrite (closed_not_connected _ (handleConnectionClose_closes _)). discriminate.
  - unfold Hono.send. destruct (Hono.connected t) eqn:Hon; simpl.
    + specialize (Hf eq_refl). unfold Hono.connected in Hon.
      unfold Hono.writeEvent. rewrite Hf in *. simpl in Hon.
      apply negb_true_iff in Hon. rewrite Hon. simpl.
      split; [exists [m]; reflexivity|].
      intros _. reflexivity.
    + split; [exists []; simpl; symmetry; apply app_nil_r|].
      rewrite Hon. discriminate.
  - unfold Hono.emit_abort. rewrite hono_iter_wire.
    split; [exists []; simpl; symmetry; apply app_nil_r|].
    apply hono_iter_first. exact Hf.
Qed.

Lemma hono_run_wire (ops : list Hono.Op) (t : Hono.HonoSSEServerTransport) :
  started t -> on_first_stream t ->
  exists ms,
    Hono.wire (Hono.run t ops)
    = (Hono.wire t ++ map (fun m => (0, message_event m)) ms)%list.
Proof.
  revert t. induction ops as [|op ops IH]; intros t Hs Hf; simpl.
  - exists []. simpl. symmetry; apply app_nil_r.
  - destruct (hono_step_wire t op Hs Hf) as [[ms1 H1] Hf'].
    destruct (IH (Hono.step t op) (hono_step_started t op Hs) Hf') as [ms2 H2].
    exists (ms1 ++ ms2)%list.
    rewrite H2, H1, map_app, app_assoc. reflexivity.
Qed.

Lemma hono_first_start (endpoint sessionId : string) (cb : Callbacks) :
  Hono.start (Hono.new endpoint sessionId cb) =
  (Hono.mkHono endpoint sessionId (Some 0) false 1 (Some 0)
               [(0, endpoint_event (encodeURI endpoint) sessionId)] [] 1 cb [],
   inr tt).
Proof.
  unfold Hono.start, Hono.writeEvent, Hono.new. cbn -[sse_event endpoint_event String.append].
  rewrite endpoint_frame. reflexivity.
Qed.

(** C9, as amended.  On a new instance of either variant [start()]
    writes one frame, the first data on the outbound stream:
    [event: endpoint], with the configured path passed through
    [encodeURI] and followed by [?sessionId=] and the session id as
    [data].  Everything written to the stream afterwards is a message
    frame, which is no endpoint event: on [HonoSSEServerTransport]
    whatever happens to the instance, on [SSEServerTransport] when the
    response refuses a second head, as a [node:http] response does, or
    [start()] is not called again. *)
Theorem endpoint_event_first_and_once
        (endpoint sessionId : string) (cb : Callbacks) :
  (forall strict : bool,
      let t := Sse.new endpoint (Sse.fresh_response strict) sessionId cb in
      snd (Sse.start t) = inr tt /\
      Sse.written (Sse.res (fst (Sse.start t)))
      = [endpoint_event (encodeURI endpoint) sessionId]) /\
  (forall (strict : bool) (ops : list Sse.Op),
      strict = true \/ no_start ops ->
      exists ms,
        Sse.written
          (Sse.res (Sse.run (Sse.new endpoint (Sse.fresh_response strict) sessionId cb)
                            (Sse.Start :: ops)))
        = endpoint_event (encodeURI endpoint) sessionId :: map message_event ms) /\
  (let t := Hono.new endpoint sessionId cb in
   snd (Hono.start t) = inr tt /\
   Hono.context_res (fst (Hono.start t)) = Some 0 /\
   Hono.wire (fst (Hono.start t))
   = [(0, endpoint_event (encodeURI endpoint) sessionId)]) /\
  (forall ops : list Hono.Op,
      exists ms,
        Hono.wire (Hono.run (Hono.new endpoint sessionId cb) (Hono.Start :: ops))
        = (0, endpoint_event (encodeURI endpoint) sessionId)
            :: map (fun m => (0, message_event m)) ms) /\
  (forall m : JSONRPCMessage,
      String.prefix "event: endpoint" (message_event m) = false).
Proof.
  split; [|split; [|split; [|split]]].
  - intros strict t. split; reflexivity.
  - intros strict ops H.
    change (Sse.run (Sse.new endpoint (Sse.fresh_response strict) sessionId cb)
                    (Sse.Start :: ops))
      with (Sse.run (fst (Sse.start
              (Sse.new endpoint (Sse.fresh_response strict) sessionId cb))) ops).
    destruct (sse_run_written ops
                (fst (Sse.start (Sse.new endpoint (Sse.fresh_response strict)
                                         sessionId cb)))) as [ms Hms].
    { destruct H as [H|H]; [right | left; exact H].
      subst strict. split; [reflexivity | discriminate]. }
    exists ms. rewrite Hms. reflexivity.
  - intros t. subst t. rewrite hono_first_start. repeat split.
  - intros ops.
    change (Hono.run (Hono.new endpoint sessionId cb) (Hono.Start :: ops))
      with (Hono.run (fst (Hono.start (Hono.new endpoint sessionId cb))) ops).
    destruct (hono_run_wire ops (fst (Hono.start (Hono.new endpoint sessionId cb))))
      as [ms Hms].
    { apply hono_start_started. }
    { intros _. reflexivity. }
    exists ms. rewrite Hms, hono_first_start. reflexivity.
  - intros m. reflexivity.
Qed.

End WithRuntime.

(** *** The model on the sample inputs *)

#[local] Existing Instance Sample.runtime.

(** The sample serializer and the sample parser agree on [ping]. *)
Lemma stringify_ping : Sample.JSON_stringify Sample.ping = Sample.ping_text.
Proof. reflexivity. Qed.

Lemma length_append (a b : string) :
  String.length (a ++ b) = String.length a + String.length b.
Proof. induction a as [|x a IH]; simpl; [reflexivity | rewrite IH; reflexivity]. Qed.

Lemma length_spaces (n : nat) : String.length (Sample.spaces n) = n.
Proof. induction n as [|n IH]; simpl; [reflexivity | rewrite IH; reflexivity]. Qed.

Lemma all_spaces_spaces (n : nat) : Sample.all_spaces (Sample.spaces n) = true.
Proof. induction n as [|n IH]; simpl; [reflexivity | exact IH]. Qed.

Lemma prefix_append (a b : string) : String.prefix a (a ++ b) = true.
Proof.
  induction a as [|x a IH]; simpl; [destruct b; reflexivity|].
  destruct (ascii_dec x x) as [_|Hne]; [exact IH | congruence].
Qed.

Lemma skip_append (a b : string) : Sample.skip (String.length a) (a ++ b) = b.
Proof. induction a as [|x a IH]; simpl; [destruct b; reflexivity | exact IH]. Qed.

(** The body of [padded_ping] parses to [ping], however long the padding. *)
Lemma padded_ping_parses (header : string) (n : N) :
  JSON_parse (Runtime := Sample.runtime) (payload (Sample.padded_ping header n))
  = inr Sample.ping.
Proof.
  unfold Sample.padded_ping. cbn [payload JSON_parse Sample.runtime].
  unfold Sample.JSON_parse.
  rewrite prefix_append, skip_append, all_spaces_spaces. reflexivity.
Qed.

(** A padding of [MAXIMUM_MESSAGE_SIZE] spaces makes the body too large. *)
Lemma padded_ping_oversized (header : string) :
  oversized (Sample.padded_ping header MAXIMUM_MESSAGE_SIZE).
Proof.
  unfold oversized, Sample.padded_ping. cbn [payload].
  rewrite length_append, length_spaces, Nat2N.inj_add, N2Nat.id.
  assert (H : (0 < N.of_nat (String.length Sample.ping_text))%N) by reflexivity.
  lia.
Qed.

Lemma post_without_stream_witness :
  Sse.handlePostMessage
    (Sse.new "/message" (Sse.fresh_response true) "id" all_assigned)
    Sample.garbled None
  = (Sse.new "/message" (Sse.fresh_response true) "id" all_assigned,
     mkHttpResponse 500 "SSE connection not established",
     inl (new_Error "SSE connection not established")) /\
  Hono.handlePostMessage (Hono.new "/message" "id" all_assigned) Sample.garbled None
  = (Hono.new "/message" "id" all_assigned,
     inr (mkHttpResponse 500 "SSE connection not established")).
Proof.
  split.
  - apply (proj1 (post_without_stream (R := Sample.runtime)
                    (Sse.new "/message" (Sse.fresh_response true) "id" all_assigned)
                    (Hono.new "/message" "id" all_assigned) Sample.garbled None)).
    reflexivity.
  - apply (proj2 (post_without_stream (R := Sample.runtime)
                    (Sse.new "/message" (Sse.fresh_response true) "id" all_assigned)
                    (Hono.new "/message" "id" all_assigned) Sample.garbled None)).
    reflexivity.
Defined.

Lemma hono_accepts_other_media_types_witness :
  is_json_media_type (R := Sample.runtime) (Some "application/json-seq") = false /\
  Hono.handlePostMessage Sample.hono_open
    (mkRequest (Some "application/json-seq") "") (Some Sample.ping)
  = (Hono.with_log Sample.hono_open [OnMessage Sample.ping],
     inr (mkHttpResponse 202 "Accepted")).
Proof.
  split; [reflexivity|].
  apply (hono_accepts_other_media_types (R := Sample.runtime) Sample.hono_open
           "application/json-seq" "" Sample.ping Sample.ping);
    reflexivity.
Defined.

Lemma hono_accepts_oversized_body_witness :
  oversized (Sample.padded_ping "application/json" MAXIMUM_MESSAGE_SIZE) /\
  Hono.handlePostMessage Sample.hono_open
    (Sample.padded_ping "application/json" MAXIMUM_MESSAGE_SIZE) None
  = (Hono.with_log Sample.hono_open
       (fire (onmessage (Hono.callbacks Sample.hono_open)) (OnMessage Sample.ping)
             (Hono.log Sample.hono_open)),
     inr (mkHttpResponse 202 "Accepted")).
Proof.
  split; [apply padded_ping_oversized|].
  exact (hono_accepts_oversized_body (R := Sample.runtime) Sample.hono_open
           (Sample.padded_ping "application/json" MAXIMUM_MESSAGE_SIZE)
           Sample.ping Sample.ping
           eq_refl (padded_ping_oversized "application/json") eq_refl
           (padded_ping_parses "application/json" MAXIMUM_MESSAGE_SIZE) eq_refl).
Defined.





(** C9 fails as stated: for the configured path [/my path] the endpoint
    event carries [/my%20path], in both variants. *)
Lemma endpoint_path_is_encoded :
  Sse.written
    (Sse.res (fst (Sse.start (R := Sample.runtime)
                     (Sse.new "/my path" (Sse.fresh_response true) "id" all_assigned))))
  = [endpoint_event "/my%20path" "id"] /\
  Hono.wire (fst (Hono.start (R := Sample.runtime)
                    (Hono.new "/my path" "id" all_assigned)))
  = [(0, endpoint_event "/my%20path" "id")] /\
  endpoint_event "/my%20path" "id" <> endpoint_event "/my path" "id".
Proof. split; [reflexivity | split; [reflexivity | discriminate]]. Qed.

Lemma endpoint_event_first_and_once_witness :
  exists ms,
    Sse.written
      (Sse.res (Sse.run (Sse.new "/message" (Sse.fresh_response true) "id" all_assigned)
                        [Sse.Start; Sse.Send (R := Sample.runtime) Sample.ping; Sse.Close; Sse.Start]))
    = endpoint_event (encodeURI "/message") "id"
        :: map (message_event (R := Sample.runtime)) ms.
Proof.
  apply (proj1 (proj2 (endpoint_event_first_and_once (R := Sample.runtime)
                         "/message" "id" all_assigned))
           true [Sse.Send (R := Sample.runtime) Sample.ping; Sse.Close; Sse.Start]).
  left; reflexivity.
Defined.

End TransportProps.

(* ================================================================== *)
(** ** Further properties of [authenticateClient] *)

Module ClientAuthMore.
Import Js ClientAuth Spec More.

Lemma malformed_refused (body : option Body) :
  malformed body -> safeParse body = None.
Proof.
  destruct body as [[id secret]|]; simpl; [|reflexivity].
  intros [Hid | Hsecret].
  - destruct id as [|s|]; try reflexivity. exfalso. exact (Hid s eq_refl).
  - rewrite Hsecret. destruct id; reflexivity.
Qed.

Lemma refused_malformed (body : option Body) :
  safeParse body = None -> malformed body.
Proof.
  destruct body as [[id secret]|]; simpl; [|trivial].
  destruct id as [|s|]; try (intros _; left; discriminate).
  destruct secret; try discriminate. intros _. right; reflexivity.
Qed.

Section Checks.
Variable getClient : string -> Lookup.
Variable ZodError_text : option Body -> string.
Variable now : Z.

(** X1.  A body the schema refuses (not an object, a [client_id] that is
    not a string, a [client_secret] that is neither missing nor a string) is
    answered 400 with [invalid_request] and the text of the schema error;
    the store is not consulted, whatever it would do. *)
Theorem malformed_body_rejected (body : option Body) :
  malformed body ->
  forall store : string -> Lookup,
    authenticateClient store ZodError_text now body
    = Respond 400 (mkResponseObject "invalid_request" (ZodError_text body)).
Proof.
  intros Hbad store. unfold authenticateClient, authenticate.
  rewrite (malformed_refused body Hbad). reflexivity.
Qed.

(** X2.  When the lookup of the client fails with anything but an OAuth
    error, the request is answered 500 with [server_error] and the fixed
    description "Internal Server Error"; an OAuth error the store throws is
    answered as it is, with 500 when it is a server error and 400
    otherwise. *)
Theorem store_failure_answered (id : string) (secret : option string) :
  (getClient id = LookupThrows ThrownOther ->
   authenticateClient getClient ZodError_text now (well_formed id secret)
   = Respond 500 (mkResponseObject "server_error" "Internal Server Error")) /\
  (forall e : OAuthError,
      getClient id = LookupThrows (ThrownOAuth e) ->
      authenticateClient getClient ZodError_text now (well_formed id secret)
      = Respond (match e with ServerError _ => 500 | _ => 400 end)
                (toResponseObject e)).
Proof.
  assert (Hparse : safeParse (well_formed id secret) = Some (id, secret))
    by (destruct secret; reflexivity).
  split.
  - intros Hget. unfold authenticateClient, authenticate.
    rewrite Hparse, Hget. reflexivity.
  - intros e Hget. unfold authenticateClient, authenticate.
    rewrite Hparse, Hget. reflexivity.
Qed.

(** X3.  The middleware lets a request through only with the record the
    store holds for the [client_id] of a well-formed body, and, when that
    record has a secret, only if the caller supplied exactly that secret and
    it is not expired. *)
Theorem authentication_sound (body : option Body) (c : OAuthClientInformationFull) :
  authenticateClient getClient ZodError_text now body = Next c ->
  exists id secret,
    safeParse body = Some (id, secret) /\
    getClient id = Found c /\
    secret_checked now secret c.
Proof.
  unfold authenticateClient, authenticate, secret_checked.
  destruct (safeParse body) as [[id secret]|]; [|simpl; discriminate].
  destruct (getClient id) as [client| |e] eqn:Hget;
    [| simpl; discriminate | destruct e as [[]|]; simpl; discriminate].
  destruct (truthy_string (client_secret client)) eqn:Hstored.
  - destruct (negb (truthy_string secret)) eqn:Hgiven; [simpl; discriminate|].
    destruct (negb (strict_eq (client_secret client) secret)) eqn:Heq;
      [simpl; discriminate|].
    destruct (truthy_number (client_secret_expires_at client) && _) eqn:Hexp;
      [simpl; discriminate|].
    intros H. inversion H; subst c. exists id, secret.
    split; [reflexivity|]. split; [exact Hget|]. intros _. split.
    + apply negb_false_iff in Heq. unfold strict_eq in Heq.
      destruct (client_secret client) as [s|], secret as [s'|]; try discriminate.
      apply String.eqb_eq in Heq. congruence.
    + unfold secret_expired. intros Hexpired.
      destruct (client_secret_expires_at client) as [e|]; [|exact Hexpired].
      destruct Hexpired as [Hz Hlt]. simpl in Hexp.
      apply Z.eqb_neq in Hz. apply Z.ltb_lt in Hlt. rewrite Hz, Hlt in Hexp.
      discriminate.
  - intros H. inversion H; subst c. exists id, secret.
    split; [reflexivity|]. split; [exact Hget|]. intros Hyes. congruence.
Qed.

(** X4.  A response of the middleware has status 400 or 500, and 500
    exactly when its [error] field is [server_error]. *)
Theorem status_follows_kind (body : option Body) (status : nat) (r : ResponseObject) :
  authenticateClient getClient ZodError_text now body = Respond status r ->
  (status = 400 \/ status = 500) /\
  (status = 500 <-> error r = "server_error").
Proof.
  unfold authenticateClient.
  destruct (authenticate getClient ZodError_text now body) as [t|c]; [|discriminate].
  destruct t as [[d|d|d]|]; simpl; intros H; inversion H; subst; simpl;
    (split; [auto|]); split; intros H'; try reflexivity; discriminate.
Qed.

(** X5.  Time only works against a stored secret: a request let through at
    some time is let through at every earlier time, and a request refused
    because the secret has expired is refused for the same reason at every
    later time. *)
Theorem expiry_is_monotone (body : option Body) (later : Z) :
  (now <= later)%Z ->
  (forall c,
      authenticateClient getClient ZodError_text later body = Next c ->
      authenticateClient getClient ZodError_text now body = Next c) /\
  (authenticateClient getClient ZodError_text now body
   = invalid_client "Client secret has expired" ->
   authenticateClient getClient ZodError_text later body
   = invalid_client "Client secret has expired").
Proof.
  intros Hle.
  assert (Hdiv : (now_seconds now <= now_seconds later)%Z)
    by (unfold now_seconds; apply Z.div_le_mono; lia).
  unfold authenticateClient, authenticate.
  destruct (safeParse body) as [[id secret]|]; [|split; [intros c|]; exact (fun H => H)].
  destruct (getClient id) as [client| |e]; try (split; [intros c|]; exact (fun H => H)).
  destruct (truthy_string (client_secret client));
    [|split; [intros c|]; exact (fun H => H)].
  destruct (negb (truthy_string secret)); [split; [intros c|]; exact (fun H => H)|].
  destruct (negb (strict_eq (client_secret client) secret));
    [split; [intros c|]; exact (fun H => H)|].
  destruct (client_secret_expires_at client) as [e|]; simpl;
    [|split; [intros c|]; exact (fun H => H)].
  destruct (Z.eqb e 0); simpl; [split; [intros c|]; exact (fun H => H)|].
  destruct (Z.ltb_spec e (now_seconds now)) as [Hnow|Hnow];
    destruct (Z.ltb_spec e (now_seconds later)) as [Hlater|Hlater];
    simpl; try lia; (split; [intros c H | intros H]); first [exact H | discriminate H].
Qed.

End Checks.

Lemma malformed_body_rejected_witness :
  authenticateClient More.failing_store Sample.ZodError_text Sample.now
    (Some (mkBody (FString "c1") FOther))
  = Respond 400 (mkResponseObject "invalid_request" "ZodError").
Proof.
  apply (malformed_body_rejected Sample.ZodError_text Sample.now
           (Some (mkBody (FString "c1") FOther))).
  right; reflexivity.
Defined.

Lemma store_failure_answered_witness :
  authenticateClient More.failing_store Sample.ZodError_text Sample.now
    (well_formed "c1" None)
  = Respond 500 (mkResponseObject "server_error" "Internal Server Error").
Proof.
  apply (proj1 (store_failure_answered More.failing_store Sample.ZodError_text
                  Sample.now "c1" None)).
  reflexivity.
Defined.

Lemma authentication_sound_witness :
  exists id secret,
    safeParse (well_formed "c2" (Some "s1")) = Some (id, secret) /\
    Sample.getClient id = Found Sample.secret_client /\
    secret_checked Sample.now secret Sample.secret_client.
Proof.
  apply (authentication_sound Sample.getClient Sample.ZodError_text Sample.now
           (well_formed "c2" (Some "s1")) Sample.secret_client).
  reflexivity.
Defined.

Lemma status_follows_kind_witness :
  (400 = 400 \/ 400 = 500) /\
  (400 = 500 <-> error (mkResponseObject "invalid_client" "Invalid client_id")
                 = "server_error").
Proof.
  apply (status_follows_kind Sample.getClient Sample.ZodError_text Sample.now
           (well_formed "nobody" None) 400
           (mkResponseObject "invalid_client" "Invalid client_id")).
  reflexivity.
Defined.

Lemma expiry_is_monotone_witness :
  authenticateClient Sample.getClient Sample.ZodError_text (Sample.now + 1000)
    (well_formed "c1" (Some "s1"))
  = invalid_client "Client secret has expired".
Proof.
  apply (proj2 (expiry_is_monotone Sample.getClient Sample.ZodError_text Sample.now
                  (well_formed "c1" (Some "s1")) (Sample.now + 1000)%Z
                  ltac:(unfold Sample.now; lia))).
  reflexivity.
Defined.

End ClientAuthMore.

(* ================================================================== *)
(** ** Further properties of the transports *)

Module TransportMore.
Import Js Transport Spec More TransportProps.

Section WithRuntime.
Context {R : Runtime}.

(** *** What the operations leave alone *)

Lemma sse_iter_static (n : nat) (t : Sse.SSEServerTransport) :
  Sse._endpoint (Nat.iter n Sse.close_listener t) = Sse._endpoint t /\
  Sse._sessionId (Nat.iter n Sse.close_listener t) = Sse._sessionId t /\
  Sse.callbacks (Nat.iter n Sse.close_listener t) = Sse.callbacks t.
Proof. induction n as [|n IH]; simpl; [repeat split | exact IH]. Qed.

Lemma sse_handleMessage_static (t : Sse.SSEServerTransport) (v : JsValue) :
  let t' := fst (Sse.handleMessage t v) in
  Sse._endpoint t' = Sse._endpoint t /\
  Sse._sessionId t' = Sse._sessionId t /\
  Sse.callbacks t' = Sse.callbacks t /\
  Sse._sseResponse t' = Sse._sseResponse t /\
  count_onclose (Sse.log t') = count_onclose (Sse.log t).
Proof.
  cbv zeta. unfold Sse.handleMessage.
  destruct (JSONRPCMessageSchema_parse v); simpl; repeat split;
    rewrite count_onclose_fire, andb_false_r; lia.
Qed.

Lemma sse_handlePostMessage_static (t : Sse.SSEServerTransport) (req : Request)
      (parsedBody : option JsValue) :
  let t' := fst (fst (Sse.handlePostMessage t req parsedBody)) in
  Sse._endpoint t' = Sse._endpoint t /\
  Sse._sessionId t' = Sse._sessionId t /\
  Sse.callbacks t' = Sse.callbacks t /\
  Sse._sseResponse t' = Sse._sseResponse t /\
  count_onclose (Sse.log t') = count_onclose (Sse.log t).
Proof.
  cbv zeta. unfold Sse.handlePostMessage.
  destruct (negb (Sse._sseResponse t)); [repeat split|].
  destruct (Sse.read_body req parsedBody) as [e|body]; simpl.
  - repeat split. rewrite count_onclose_fire, andb_false_r; lia.
  - destruct (Sse.parse_body body) as [e|v]; [repeat split|].
    pose proof (sse_handleMessage_static t v) as H.
    destruct (Sse.handleMessage t v) as [t' [e|u]]; exact H.
Qed.

Lemma sse_step_static (t : Sse.SSEServerTransport) (op : Sse.Op) :
  Sse._endpoint (Sse.step t op) = Sse._endpoint t /\
  Sse._sessionId (Sse.step t op) = Sse._sessionId t /\
  Sse.callbacks (Sse.step t op) = Sse.callbacks t.
Proof.
  destruct op as [|req pb|v| |m|]; simpl.
  - unfold Sse.start. destruct (Sse._sseResponse t); [repeat split|].
    destruct (Sse.writeHead _ _ _); repeat split.
  - pose proof (sse_handlePostMessage_static t req pb) as H. simpl in H. tauto.
  - pose proof (sse_handleMessage_static t v) as H. simpl in H. tauto.
  - destruct (Sse._sseResponse t); repeat split.
  - unfold Sse.send. destruct (negb (Sse._sseResponse t)); repeat split.
  - apply sse_iter_static.
Qed.

Lemma hono_iter_static (n : nat) (t : Hono.HonoSSEServerTransport) :
  Hono._endpoint (Nat.iter n Hono.handleConnectionClose t) = Hono._endpoint t /\
  Hono._sessionId (Nat.iter n Hono.handleConnectionClose t) = Hono._sessionId t /\
  Hono.callbacks (Nat.iter n Hono.handleConnectionClose t) = Hono.callbacks t.
Proof.
  induction n as [|n IH]; simpl; [repeat split|].
  unfold Hono.handleConnectionClose at 1 3 5.
  destruct (negb (Hono._isConnectionClosed _)); simpl; exact IH.
Qed.

Lemma hono_step_static (t : Hono.HonoSSEServerTransport) (op : Hono.Op) :
  Hono._endpoint (Hono.step t op) = Hono._endpoint t /\
  Hono._sessionId (Hono.step t op) = Hono._sessionId t /\
  Hono.callbacks (Hono.step t op) = Hono.callbacks t.
Proof.
  destruct op as [|req pb|v| |m|]; simpl.
  - unfold Hono.start, Hono.writeEvent.
    destruct (Hono._writer t); simpl; [repeat split|].
    destruct (Hono._isConnectionClosed t); simpl; repeat split.
  - unfold Hono.handlePostMessage, Hono.handleMessage.
    destruct (negb (Hono.connected t)); [repeat split|].
    destruct (Hono.read_body req pb) as [e|body]; simpl; [repeat split|].
    destruct (JSONRPCMessageSchema_parse body); simpl; repeat split.
  - unfold Hono.handleMessage.
    destruct (JSONRPCMessageSchema_parse v); simpl; repeat split.
  - unfold Hono.handleConnectionClose.
    destruct (negb (Hono._isConnectionClosed t)); simpl; repeat split.
  - unfold Hono.send, Hono.writeEvent.
    destruct (negb (Hono.connected t)); [repeat split|].
    destruct (Hono._writer t); [destruct (Hono._isConnectionClosed t)|];
      simpl; repeat split.
  - apply hono_iter_static.
Qed.

(** X14.  The session id and the endpoint of a transport are fixed when it
    is created: nothing that happens to the transport changes them, so a
    POST can be routed by [sessionId] for as long as the instance lives. *)
Theorem session_id_fixed :
  (forall (ops : list Sse.Op) (t : Sse.SSEServerTransport),
      Sse.sessionId (Sse.run t ops) = Sse.sessionId t /\
      Sse._endpoint (Sse.run t ops) = Sse._endpoint t) /\
  (forall (ops : list Hono.Op) (t : Hono.HonoSSEServerTransport),
      Hono.sessionId (Hono.run t ops) = Hono.sessionId t /\
      Hono._endpoint (Hono.run t ops) = Hono._endpoint t).
Proof.
  split.
  - induction ops as [|op ops IH]; intros t; simpl; [split; reflexivity|].
    destruct (IH (Sse.step t op)) as [Hs He].
    destruct (sse_step_static t op) as (He' & Hs' & _).
    unfold Sse.sessionId in *. unfold Sse.run in *.
    rewrite Hs, He. split; assumption.
  - induction ops as [|op ops IH]; intros t; simpl; [split; reflexivity|].
    destruct (IH (Hono.step t op)) as [Hs He].
    destruct (hono_step_static t op) as (He' & Hs' & _).
    unfold Hono.sessionId in *. unfold Hono.run in *.
    rewrite Hs, He. split; assumption.
Qed.

(** X8.  Handling a POST never touches the outbound side: on either
    variant [handlePostMessage] writes nothing to the event stream, leaves
    the connection state as it is and does not invoke [onclose], whatever
    the request. *)
Theorem post_leaves_stream_alone
        (req : Request) (parsedBody : option JsValue) :
  (forall t : Sse.SSEServerTransport,
      let t' := fst (fst (Sse.handlePostMessage t req parsedBody)) in
      Sse.res t' = Sse.res t /\
      Sse._sseResponse t' = Sse._sseResponse t /\
      count_onclose (Sse.log t') = count_onclose (Sse.log t)) /\
  (forall t : Hono.HonoSSEServerTransport,
      let t' := fst (Hono.handlePostMessage t req parsedBody) in
      Hono.wire t' = Hono.wire t /\
      Hono._writer t' = Hono._writer t /\
      Hono._isConnectionClosed t' = Hono._isConnectionClosed t /\
      count_onclose (Hono.log t') = count_onclose (Hono.log t)).
Proof.
  split; intros t t'; subst t'.
  - split; [apply sse_handlePostMessage_res|].
    pose proof (sse_handlePostMessage_static t req parsedBody) as H. simpl in H. tauto.
  - pose proof (hono_handlePostMessage_fields t req parsedBody) as H. simpl in H. tauto.
Qed.

(** *** Outbound messages *)

Lemma sse_send_open (t : Sse.SSEServerTransport) (m : JSONRPCMessage) :
  Sse._sseResponse t = true ->
  Sse.send t m = (Sse.with_res t (Sse.write (message_event m) (Sse.res t)), inr tt).
Proof. intros Hon. unfold Sse.send. rewrite Hon. reflexivity. Qed.

Lemma hono_send_open (t : Hono.HonoSSEServerTransport) (w : nat) (m : JSONRPCMessage) :
  Hono._writer t = Some w ->
  Hono._isConnectionClosed t = false ->
  Hono.send t m
  = (Hono.mkHono (Hono._endpoint t) (Hono._sessionId t) (Some w) false
                 (Hono.streams t) (Hono.context_res t)
                 (Hono.wire t ++ [(w, message_event m)])
                 (Hono.closed_writers t) (Hono.abort_listeners t)
                 (Hono.callbacks t) (Hono.log t),
     inr tt).
Proof.
  intros Hw Hc. unfold Hono.send, Hono.connected, Hono.writeEvent.
  rewrite Hw, Hc. reflexivity.
Qed.

Lemma sse_sends (ms : list JSONRPCMessage) (t : Sse.SSEServerTransport) :
  Sse._sseResponse t = true ->
  Sse.written (Sse.res (Sse.run t (map Sse.Send ms)))
  = (Sse.written (Sse.res t) ++ map message_event ms)%list /\
  Sse._sseResponse (Sse.run t (map Sse.Send ms)) = true /\
  Sse.log (Sse.run t (map Sse.Send ms)) = Sse.log t.
Proof.
  revert t. induction ms as [|m ms IH]; intros t Hon.
  - simpl. rewrite app_nil_r. repeat split. exact Hon.
  - change (Sse.run t (map Sse.Send (m :: ms)))
      with (Sse.run (fst (Sse.send t m)) (map Sse.Send ms)).
    rewrite (sse_send_open t m Hon). cbn [fst].
    destruct (IH (Sse.with_res t (Sse.write (message_event m) (Sse.res t))) Hon)
      as (Hw & Hc & Hl).
    rewrite Hw, Hc, Hl. cbn [map]. split; [|split; reflexivity].
    cbn [Sse.with_res Sse.res Sse.write Sse.written].
    rewrite <- app_assoc. reflexivity.
Qed.

Lemma hono_sends (ms : list JSONRPCMessage) (t : Hono.HonoSSEServerTransport)
      (w : nat) :
  Hono._writer t = Some w ->
  Hono._isConnectionClosed t = false ->
  Hono.wire (Hono.run t (map Hono.Send ms))
  = (Hono.wire t ++ map (fun m => (w, message_event m)) ms)%list /\
  Hono.connected (Hono.run t (map Hono.Send ms)) = true /\
  Hono.log (Hono.run t (map Hono.Send ms)) = Hono.log t.
Proof.
  revert t. induction ms as [|m ms IH]; intros t Hw Hc.
  - simpl. rewrite app_nil_r. unfold Hono.connected. rewrite Hw, Hc. repeat split.
  - change (Hono.run t (map Hono.Send (m :: ms)))
      with (Hono.run (fst (Hono.send t m)) (map Hono.Send ms)).
    rewrite (hono_send_open t w m Hw Hc). cbn [fst].
    match goal with
    | |- context [Hono.run ?t1 _] =>
        destruct (IH t1 eq_refl eq_refl) as (Hwire & Hcon & Hlog)
    end.
    rewrite Hwire, Hcon, Hlog. cbn [map Hono.wire Hono.log].
    rewrite <- app_assoc. repeat split.
Qed.

(** X6.  Messages sent on an established stream arrive in the order of the
    calls: a run of [send] calls appends one message frame per call to the
    stream, in that order and with nothing in between, invokes no callback
    and leaves the stream established. *)
Theorem sends_arrive_in_order (ms : list JSONRPCMessage) :
  (forall t : Sse.SSEServerTransport,
      Sse._sseResponse t = true ->
      Sse.written (Sse.res (Sse.run t (map Sse.Send ms)))
      = (Sse.written (Sse.res t) ++ map message_event ms)%list /\
      Sse._sseResponse (Sse.run t (map Sse.Send ms)) = true /\
      Sse.log (Sse.run t (map Sse.Send ms)) = Sse.log t) /\
  (forall (t : Hono.HonoSSEServerTransport) (w : nat),
      Hono._writer t = Some w ->
      Hono._isConnectionClosed t = false ->
      Hono.wire (Hono.run t (map Hono.Send ms))
      = (Hono.wire t ++ map (fun m => (w, message_event m)) ms)%list /\
      Hono.connected (Hono.run t (map Hono.Send ms)) = true /\
      Hono.log (Hono.run t (map Hono.Send ms)) = Hono.log t).
Proof.
  split; [apply sse_sends | apply hono_sends].
Qed.

(** *** Inbound messages *)

(** X7.  A POST to an established stream whose content type is
    [application/json], whose body is within the limit, decodes in the
    charset of the header ([utf-8] when it names none) and parses to a
    message the schema lets through, is answered 202 "Accepted";
    [onmessage] is invoked once, with that message, and nothing else
    changes.  On [HonoSSEServerTransport] the same holds for a header that
    contains [application/json] and a body that parses. *)
Theorem valid_post_accepted (req : Request) (v : JsValue) (m : JSONRPCMessage) :
  JSONRPCMessageSchema_parse v = inr m ->
  (forall (t : Sse.SSEServerTransport) (ct : ContentType) (s : string),
      Sse._sseResponse t = true ->
      contentType_parse (nullish_else (content_type req) "") = inr ct ->
      type ct = "application/json" ->
      ~ oversized req ->
      decode (nullish_else (charset ct) "utf-8") (payload req) = inr s ->
      JSON_parse s = inr v ->
      Sse.handlePostMessage t req None
      = (Sse.with_log t (fire (onmessage (Sse.callbacks t)) (OnMessage m) (Sse.log t)),
         mkHttpResponse 202 "Accepted", inr tt)) /\
  (forall t : Hono.HonoSSEServerTransport,
      Hono.connected t = true ->
      includes (or_else (content_type req) "") "application/json" = true ->
      JSON_parse (payload req) = inr v ->
      Hono.handlePostMessage t req None
      = (Hono.with_log t (fire (onmessage (Hono.callbacks t)) (OnMessage m) (Hono.log t)),
         inr (mkHttpResponse 202 "Accepted"))).
Proof.
  intros Hm. split.
  - intros t ct s Hon Hct Htype Hsize Hdecode Hparse.
    unfold Sse.handlePostMessage, Sse.read_body, getRawBody. rewrite Hon, Hct, Htype.
    simpl.
    assert (Hlim : (MAXIMUM_MESSAGE_SIZE <? N.of_nat (String.length (payload req)))%N
                   = false).
    { apply N.ltb_ge. unfold oversized in Hsize. lia. }
    rewrite Hlim, Hdecode. simpl. rewrite Hparse.
    unfold Sse.handleMessage. rewrite Hm. reflexivity.
  - intros t Hon Hinc Hparse.
    apply hono_accepts with (v := v); try assumption.
    unfold Hono.read_body, given. rewrite Hinc. simpl. exact Hparse.
Qed.


(** *** Closing *)

Lemma handleConnectionClose_closed (t : Hono.HonoSSEServerTransport) :
  Hono._isConnectionClosed t = true -> Hono.handleConnectionClose t = t.
Proof. intros Hc. unfold Hono.handleConnectionClose. rewrite Hc. reflexivity. Qed.

Lemma hono_iter_closed_id (n : nat) (t : Hono.HonoSSEServerTransport) :
  Hono._isConnectionClosed t = true -> Nat.iter n Hono.handleConnectionClose t = t.
Proof.
  intros Hc. induction n as [|n IH]; simpl; [reflexivity|].
  rewrite IH. apply handleConnectionClose_closed, Hc.
Qed.

(** X10.  Closing a [HonoSSEServerTransport] is idempotent: after
    [close()], further calls of [close()] and aborts of the request, in any
    number and order, change nothing at all; in particular the writer is not
    closed again and [onclose] is not invoked again. *)
Theorem hono_close_idempotent (t : Hono.HonoSSEServerTransport) (ops : list Hono.Op) :
  forallb is_closing ops = true ->
  Hono.run (fst (Hono.close t)) ops = fst (Hono.close t).
Proof.
  simpl. generalize (handleConnectionClose_closes t).
  generalize (Hono.handleConnectionClose t). clear t.
  induction ops as [|op ops IH]; intros t Hc Hops; simpl; [reflexivity|].
  simpl in Hops. apply andb_prop in Hops. destruct Hops as [Hop Hops].
  assert (Hstep : Hono.step t op = t).
  { destruct op; try discriminate; simpl.
    - apply handleConnectionClose_closed, Hc.
    - apply hono_iter_closed_id, Hc. }
  rewrite Hstep. apply IH; assumption.
Qed.

Lemma handleConnectionClose_counted (t : Hono.HonoSSEServerTransport) :
  close_counted t -> close_counted (Hono.handleConnectionClose t).
Proof.
  unfold close_counted, Hono.handleConnectionClose.
  destruct (Hono._isConnectionClosed t) eqn:Hc; simpl; [rewrite Hc; trivial|].
  intros H. rewrite count_onclose_fire, H.
  destruct (onclose (Hono.callbacks t)); reflexivity.
Qed.

Lemma hono_iter_counted (n : nat) (t : Hono.HonoSSEServerTransport) :
  close_counted t -> close_counted (Nat.iter n Hono.handleConnectionClose t).
Proof.
  intros Ht. induction n as [|n IH]; simpl; [exact Ht|].
  apply handleConnectionClose_counted, IH.
Qed.

Lemma hono_step_counted (t : Hono.HonoSSEServerTransport) (op : Hono.Op) :
  close_counted t -> close_counted (Hono.step t op).
Proof.
  intros Ht.
  destruct (hono_step_static t op) as (_ & _ & Hcb).
  destruct op as [|req pb|v| |m|].
  - unfold close_counted in *. rewrite Hcb.
    change (Hono.step t Hono.Start) with (fst (Hono.start t)).
    pose proof (hono_start_fields t) as (Hc & Hl & _). simpl in Hc, Hl.
    rewrite Hc, Hl. exact Ht.
  - unfold close_counted in *. rewrite Hcb.
    change (Hono.step t (Hono.HandlePostMessage req pb))
      with (fst (Hono.handlePostMessage t req pb)).
    pose proof (hono_handlePostMessage_fields t req pb) as (_ & Hc & _ & Hl).
    simpl in Hc, Hl. rewrite Hc, Hl. exact Ht.
  - unfold close_counted in *. rewrite Hcb.
    change (Hono.step t (Hono.HandleMessage v)) with (fst (Hono.handleMessage t v)).
    pose proof (hono_handleMessage_fields t v) as (_ & Hc & _ & Hl).
    simpl in Hc, Hl. rewrite Hc, Hl. exact Ht.
  - apply handleConnectionClose_counted, Ht.
  - unfold close_counted in *. rewrite Hcb.
    change (Hono.step t (Hono.Send m)) with (fst (Hono.send t m)).
    pose proof (hono_send_fields t m) as (_ & Hc & Hl). simpl in Hc, Hl.
    rewrite Hc, Hl. exact Ht.
  - apply hono_iter_counted, Ht.
Qed.

Lemma hono_run_counted (ops : list Hono.Op) (t : Hono.HonoSSEServerTransport) :
  close_counted t -> close_counted (Hono.run t ops).
Proof.
  revert t. induction ops as [|op ops IH]; intros t Ht; simpl; [exact Ht|].
  apply IH, hono_step_counted, Ht.
Qed.

Lemma hono_run_closes (ops : list Hono.Op) (t : Hono.HonoSSEServerTransport) :
  existsb is_close ops = true ->
  Hono._isConnectionClosed (Hono.run t ops) = true.
Proof.
  revert t. induction ops as [|op ops IH]; intros t Hops; simpl in *; [discriminate|].
  apply orb_prop in Hops. destruct Hops as [Hop|Hops]; [|apply IH, Hops].
  apply hono_run_stays_closed. destruct op; try discriminate. simpl.
  apply handleConnectionClose_closes.
Qed.

Lemma hono_run_callbacks (ops : list Hono.Op) (t : Hono.HonoSSEServerTransport) :
  Hono.callbacks (Hono.run t ops) = Hono.callbacks t.
Proof.
  revert t. induction ops as [|op ops IH]; intros t; [reflexivity|].
  change (Hono.run t (op :: ops)) with (Hono.run (Hono.step t op) ops).
  rewrite IH. apply hono_step_static.
Qed.

(** X11.  On a [HonoSSEServerTransport] whose [onclose] is assigned, the
    callback has been invoked exactly once when the transport is closed and
    not at all while it is not, whatever was done to the transport; so as
    soon as [close()] has been called once, [onclose] has fired exactly
    once, however many close triggers precede or follow. *)
Theorem hono_onclose_exactly_once
        (endpoint sessionId : string) (cb : Callbacks) (ops : list Hono.Op) :
  onclose cb = true ->
  let t := Hono.run (Hono.new endpoint sessionId cb) ops in
  count_onclose (Hono.log t) = (if Hono._isConnectionClosed t then 1 else 0) /\
  (existsb is_close ops = true -> count_onclose (Hono.log t) = 1).
Proof.
  intros Hcb t.
  assert (H : close_counted t).
  { apply hono_run_counted. reflexivity. }
  unfold close_counted in H. subst t.
  rewrite hono_run_callbacks in H. simpl in H. rewrite Hcb, andb_true_r in H.
  split; [exact H|].
  intros Hclose. rewrite H, (hono_run_closes ops _ Hclose). reflexivity.
Qed.

Lemma sse_close_counts (t : Sse.SSEServerTransport) :
  onclose (Sse.callbacks t) = true ->
  count_onclose (Sse.log (fst (Sse.close t))) = S (count_onclose (Sse.log t)) /\
  onclose (Sse.callbacks (fst (Sse.close t))) = true.
Proof.
  intros Hcb. unfold Sse.close. simpl.
  destruct (Sse._sseResponse t); simpl; rewrite count_onclose_fire, Hcb; simpl;
    split; try lia; reflexivity.
Qed.

(** X16.  [SSEServerTransport.close()] is not idempotent: every call
    invokes [onclose] once more, whether or not the stream was ever
    established, so [n] calls of [close()] add [n] invocations. *)
Theorem sse_close_fires_each_time (n : nat) (t : Sse.SSEServerTransport) :
  onclose (Sse.callbacks t) = true ->
  count_onclose (Sse.log (Sse.run t (repeat Sse.Close n)))
  = count_onclose (Sse.log t) + n.
Proof.
  revert t. induction n as [|n IH]; intros t Hcb; [simpl; lia|].
  change (Sse.run t (repeat Sse.Close (S n)))
    with (Sse.run (fst (Sse.close t)) (repeat Sse.Close n)).
  destruct (sse_close_counts t Hcb) as [Hcount Hcb'].
  rewrite (IH _ Hcb'), Hcount. lia.
Qed.

Lemma hono_step_frozen (t : Hono.HonoSSEServerTransport) (op : Hono.Op) :
  Hono._isConnectionClosed t = true ->
  Hono.wire (Hono.step t op) = Hono.wire t.
Proof.
  intros Hc. destruct op as [|req pb|v| |m|]; simpl.
  - unfold Hono.start, Hono.writeEvent.
    destruct (Hono._writer t); simpl; [reflexivity|]. rewrite Hc. reflexivity.
  - apply (hono_handlePostMessage_fields t req pb).
  - apply (hono_handleMessage_fields t v).
  - apply handleConnectionClose_wire.
  - rewrite (hono_send_closed t m Hc). reflexivity.
  - apply hono_iter_wire.
Qed.

(** X17.  For a [HonoSSEServerTransport] closed is final: once the close
    flag is set, whatever is done to the transport, [start()] included, it
    is never connected again and nothing more is written to any stream. *)
Theorem hono_closed_is_final (ops : list Hono.Op) (t : Hono.HonoSSEServerTransport) :
  Hono._isConnectionClosed t = true ->
  Hono.connected (Hono.run t ops) = false /\
  Hono.wire (Hono.run t ops) = Hono.wire t.
Proof.
  intros Hc. split.
  - apply closed_not_connected, hono_run_stays_closed, Hc.
  - revert t Hc. induction ops as [|op ops IH]; intros t Hc; [reflexivity|].
    change (Hono.run t (op :: ops)) with (Hono.run (Hono.step t op) ops).
    rewrite (IH _ (hono_step_stays_closed t op Hc)). apply hono_step_frozen, Hc.
Qed.

(** *** The endpoint event *)

Lemma percent_byte_single_line (c : ascii) : has_line_break (percent_byte c) = false.
Proof. destruct c as [[] [] [] [] [] [] [] []]; reflexivity. Qed.

Lemma kept_single_line (c : ascii) : uri_kept c = true -> is_line_break c = false.
Proof. destruct c as [[] [] [] [] [] [] [] []]; simpl; intros H; try reflexivity; discriminate H. Qed.

Lemma has_line_break_app (a b : string) :
  has_line_break (a ++ b) = has_line_break a || has_line_break b.
Proof.
  induction a as [|c a IH]; simpl; [reflexivity|].
  rewrite IH. apply orb_assoc.
Qed.

Lemma encodeURI_single_line (s : string) : has_line_break (encodeURI s) = false.
Proof.
  induction s as [|c s IH]; [reflexivity|]. cbn [encodeURI].
  destruct (uri_kept c) eqn:Hk.
  - cbn [has_line_break]. rewrite (kept_single_line c Hk), IH. reflexivity.
  - rewrite has_line_break_app, percent_byte_single_line, IH. reflexivity.
Qed.

(** X15.  Whatever the configured endpoint, line breaks included, the
    address announced in the endpoint event holds no line break, so the
    [data] field of the event cannot be cut short or followed by a forged
    field: it is the encoded endpoint, on one line, up to [?sessionId=]. *)
Theorem endpoint_event_single_line (endpoint sessionId : string) (cb : Callbacks) :
  has_line_break (encodeURI endpoint) = false /\
  (forall strict : bool,
      Sse.written
        (Sse.res (fst (Sse.start (Sse.new endpoint (Sse.fresh_response strict)
                                          sessionId cb))))
      = [endpoint_event (encodeURI endpoint) sessionId]) /\
  Hono.wire (fst (Hono.start (Hono.new endpoint sessionId cb)))
  = [(0, endpoint_event (encodeURI endpoint) sessionId)].
Proof.
  split; [apply encodeURI_single_line|]. split.
  - intros strict. reflexivity.
  - rewrite hono_first_start. reflexivity.
Qed.

End WithRuntime.

(** *** The model on the sample inputs *)

#[local] Existing Instance Sample.runtime.

Lemma sends_arrive_in_order_witness :
  Sse.written (Sse.res (Sse.run Sample.sse_open
                                (map Sse.Send [Sample.ping; Sample.ping])))
  = (Sse.written (Sse.res Sample.sse_open)
     ++ map message_event [Sample.ping; Sample.ping])%list /\
  Sse._sseResponse (Sse.run Sample.sse_open (map Sse.Send [Sample.ping; Sample.ping]))
  = true /\
  Sse.log (Sse.run Sample.sse_open (map Sse.Send [Sample.ping; Sample.ping]))
  = Sse.log Sample.sse_open.
Proof.
  apply (proj1 (sends_arrive_in_order (R := Sample.runtime) [Sample.ping; Sample.ping])).
  reflexivity.
Defined.

Lemma valid_post_accepted_witness :
  Sse.handlePostMessage Sample.sse_open More.ping_post None
  = (Sse.with_log Sample.sse_open [OnMessage Sample.ping],
     mkHttpResponse 202 "Accepted", inr tt).
Proof.
  apply (proj1 (valid_post_accepted (R := Sample.runtime) More.ping_post
                  Sample.ping Sample.ping eq_refl)
           Sample.sse_open (mkContentType "application/json" None) Sample.ping_text).
  - reflexivity.
  - reflexivity.
  - reflexivity.
  - vm_compute. discriminate.
  - reflexivity.
  - reflexivity.
Defined.


Lemma hono_close_idempotent_witness :
  Hono.run (fst (Hono.close Sample.hono_open)) [Hono.Close; Hono.Aborted; Hono.Close]
  = fst (Hono.close Sample.hono_open).
Proof.
  apply (hono_close_idempotent (R := Sample.runtime) Sample.hono_open
           [Hono.Close; Hono.Aborted; Hono.Close]).
  reflexivity.
Defined.

Lemma hono_onclose_exactly_once_witness :
  count_onclose
    (Hono.log (Hono.run (Hono.new "/message" "id" all_assigned)
                        [Hono.Start; Hono.Close; Hono.Aborted; Hono.Close]))
  = 1.
Proof.
  apply (proj2 (hono_onclose_exactly_once (R := Sample.runtime) "/message" "id"
                  all_assigned [Hono.Start; Hono.Close; Hono.Aborted; Hono.Close]
                  eq_refl)).
  reflexivity.
Defined.

Lemma sse_close_fires_each_time_witness :
  count_onclose (Sse.log (Sse.run Sample.sse_open (repeat Sse.Close 3)))
  = count_onclose (Sse.log Sample.sse_open) + 3.
Proof.
  apply (sse_close_fires_each_time (R := Sample.runtime) 3 Sample.sse_open).
  reflexivity.
Defined.

Lemma hono_closed_is_final_witness :
  Hono.connected
    (Hono.run (fst (Hono.close Sample.hono_open))
              [Hono.Start; Hono.Send (R := Sample.runtime) Sample.ping])
  = false /\
  Hono.wire
    (Hono.run (fst (Hono.close Sample.hono_open))
              [Hono.Start; Hono.Send (R := Sample.runtime) Sample.ping])
  = Hono.wire (fst (Hono.close Sample.hono_open)).
Proof.
  apply (hono_closed_is_final (R := Sample.runtime)
           [Hono.Start; Hono.Send (R := Sample.runtime) Sample.ping]
           (fst (Hono.close Sample.hono_open))).
  reflexivity.
Defined.

Lemma sse_rejects_other_media_types_witness :
  exists error,
    Sse.read_body More.json_seq_post None = inl error /\
    Sse.handlePostMessage Sample.sse_open More.json_seq_post None
    = (Sse.with_log Sample.sse_open
         (fire (onerror (Sse.callbacks Sample.sse_open)) (OnError error)
               (Sse.log Sample.sse_open)),
       mkHttpResponse 400 (String_of_Error error), inr tt).
Proof.
  apply (sse_rejects_other_media_types (R := Sample.runtime) Sample.sse_open
           More.json_seq_post None); reflexivity.
Defined.

Lemma sse_rejects_oversized_body_witness :
  exists error,
    Sse.handlePostMessage Sample.sse_open
      (Sample.padded_ping "application/json" MAXIMUM_MESSAGE_SIZE) None
    = (Sse.with_log Sample.sse_open
         (fire (onerror (Sse.callbacks Sample.sse_open)) (OnError error)
               (Sse.log Sample.sse_open)),
       mkHttpResponse 400 (String_of_Error error), inr tt).
Proof.
  exact (sse_rejects_oversized_body (R := Sample.runtime) Sample.sse_open
           (Sample.padded_ping "application/json" MAXIMUM_MESSAGE_SIZE) None
           eq_refl eq_refl (padded_ping_oversized "application/json")).
Defined.

End TransportMore.

(* ================================================================== *)
(** ** Properties of the test server *)

Module CliProps.
Import Js Transport Spec More.

Section WithRuntime.
Context {R : Runtime}.

Lemma app_without_sessions (req : Cli.HttpRequest) :
  Cli.app [] req = ([], Cli.answer_without_sessions req, inr tt).
Proof.
  unfold Cli.app, Cli.answer_without_sessions.
  destruct (Cli.method req); try reflexivity; destruct (Cli.path req); reflexivity.
Qed.

(** X18.  The test server never registers a session: the handler of
    [/sse] answers 401 before it creates a transport, so over any sequence
    of requests the list of servers stays empty, every GET of [/sse] is
    answered 401 "Unauthorized" and every POST to [/message] is answered 404
    "Session not found", whatever session id it carries; an [OPTIONS]
    request is answered 204 by the CORS middleware before any route. *)
Theorem test_server_registers_no_session (reqs : list Cli.HttpRequest) :
  Cli.serve [] reqs = ([], map Cli.answer_without_sessions reqs).
Proof.
  induction reqs as [|req reqs IH]; simpl; [reflexivity|].
  rewrite app_without_sessions, IH. reflexivity.
Qed.

Lemma post_to_unknown (servers : list Sse.SSEServerTransport)
      (sessionId : option string) (req : Request) :
  (forall t, In t servers -> Some (Sse.sessionId t) <> sessionId) ->
  Cli.post_to servers sessionId req = None.
Proof.
  induction servers as [|t servers IH]; intros Hnone; [reflexivity|].
  cbn [Cli.post_to].
  assert (Ht : strict_eq (Some (Sse.sessionId t)) sessionId = false).
  { specialize (Hnone t (or_introl eq_refl)).
    destruct sessionId as [s|]; simpl; [|reflexivity].
    apply String.eqb_neq. congruence. }
  rewrite Ht, IH; [reflexivity|].
  intros t' Hin. apply Hnone. right; exact Hin.
Qed.

(** X19.  A POST to [/message] whose [sessionId] is missing or is the id
    of no registered transport is answered 404 "Session not found"; no
    transport is touched. *)
Theorem unknown_session_not_found
        (servers : list Sse.SSEServerTransport) (req : Cli.HttpRequest) :
  Cli.method req = Cli.POST ->
  Cli.path req = Cli.MessagePath ->
  (forall t, In t servers -> Some (Sse.sessionId t) <> Cli.query_sessionId req) ->
  Cli.app servers req
  = (servers,
     Cli.Replied (Cli.mkHttpReply 404 Cli.cors_headers (Cli.TextBody "Session not found")),
     inr tt).
Proof.
  intros Hm Hp Hnone. unfold Cli.app. rewrite Hm, Hp.
  rewrite (post_to_unknown servers _ _ Hnone). reflexivity.
Qed.


End WithRuntime.

#[local] Existing Instance Sample.runtime.

Lemma unknown_session_not_found_witness :
  Cli.app [Sample.sse_open]
    (Cli.mkHttpRequest Cli.POST Cli.MessagePath (Some "other") More.ping_post)
  = ([Sample.sse_open],
     Cli.Replied (Cli.mkHttpReply 404 Cli.cors_headers (Cli.TextBody "Session not found")),
     inr tt).
Proof.
  apply (unknown_session_not_found (R := Sample.runtime) [Sample.sse_open]
           (Cli.mkHttpRequest Cli.POST Cli.MessagePath (Some "other") More.ping_post)).
  - reflexivity.
  - reflexivity.
  - intros t [<-|[]]. discriminate.
Defined.


End CliProps.
